(** * Verification of the WAV streaming player of rust-esp32s3-play-wav

    Shallow embedding of [main] in [src/main.rs]: the header decoding
    (lines 162-179), the timing read and the seeks (lines 199-229) and the
    transfer loop (lines 221-244), with the SD card ([embedded_sdmmc]) and
    the I2S driver ([esp_idf_hal]) as explicit collaborators acting on an
    explicit state. *)

From Stdlib Require Import List ZArith Lia Bool String.
Import ListNotations.
Open Scope Z_scope.

(* ------------------------------------------------------------------------- *)
(** ** Bytes and little-endian integers *)

(** A [u8] of the source, as its numeric value. *)
Definition u8 (b : Byte.byte) : Z := Z.of_N (Byte.to_N b).

(** The byte whose value is [z mod 256] (used to build test buffers). *)
Definition byte_of_Z (z : Z) : Byte.byte :=
  match Byte.of_N (Z.to_N (z mod 256)) with
  | Some b => b
  | None => Byte.x00
  end.

(** [&header[a..b]] on the 44-byte array. *)
Definition slice (h : list Byte.byte) (a b : nat) : list Byte.byte :=
  firstn (b - a) (skipn a h).

(** [u32::from_le_bytes(s.try_into().unwrap())]: [None] when the slice does
    not have length 4 (the [unwrap] then panics). *)
Definition u32_from_le_bytes (s : list Byte.byte) : option Z :=
  match s with
  | [b0; b1; b2; b3] =>
      Some (u8 b0 + u8 b1 * 2^8 + u8 b2 * 2^16 + u8 b3 * 2^24)
  | _ => None
  end.

(** [u16::from_le_bytes(s.try_into().unwrap())]. *)
Definition u16_from_le_bytes (s : list Byte.byte) : option Z :=
  match s with
  | [b0; b1] => Some (u8 b0 + u8 b1 * 2^8)
  | _ => None
  end.

(* ------------------------------------------------------------------------- *)
(** ** [std::str::from_utf8]

    The validation of [core::str::from_utf8] (well-formed UTF-8 as in
    Table 3-7 of the Unicode standard, which is what
    [run_utf8_validation] accepts). *)

Definition in_range (lo hi x : Z) : bool := (lo <=? x) && (x <=? hi).

Definition is_cont (x : Z) : bool := in_range 128 191 x.

(** Allowed second byte of a three-byte sequence led by [x]. *)
Definition second3_ok (x y : Z) : bool :=
  if x =? 224 then in_range 160 191 y
  else if x =? 237 then in_range 128 159 y
  else is_cont y.

(** Allowed second byte of a four-byte sequence led by [x]. *)
Definition second4_ok (x y : Z) : bool :=
  if x =? 240 then in_range 144 191 y
  else if x =? 244 then in_range 128 143 y
  else is_cont y.

Fixpoint utf8_valid (l : list Byte.byte) : bool :=
  match l with
  | [] => true
  | b0 :: r =>
      let x := u8 b0 in
      if x <? 128 then utf8_valid r
      else if in_range 194 223 x then
        match r with
        | b1 :: r' => is_cont (u8 b1) && utf8_valid r'
        | _ => false
        end
      else if in_range 224 239 x then
        match r with
        | b1 :: b2 :: r' =>
            second3_ok x (u8 b1) && is_cont (u8 b2) && utf8_valid r'
        | _ => false
        end
      else if in_range 240 244 x then
        match r with
        | b1 :: b2 :: b3 :: r' =>
            second4_ok x (u8 b1) && is_cont (u8 b2) && is_cont (u8 b3)
            && utf8_valid r'
        | _ => false
        end
      else false
  end.

(* ------------------------------------------------------------------------- *)
(** ** Outcomes *)

(** The error of [main] ([anyhow::Error]), by origin. *)
Inductive ErrKind := SdCardError | I2sError.

(** How a run of [main] stops early: a panic ([unwrap]/[expect]), an error
    returned through [?], or (in the model only) exhausted fuel, which
    stands for a loop that has not exited. *)
Inductive Stop :=
| Panic (msg : string)
| Error (e : ErrKind)
| OutOfFuel.

Inductive Result (A : Type) :=
| Ok (a : A)
| Fail (s : Stop).
Arguments Ok {A} a.
Arguments Fail {A} s.

(** [Option::unwrap]. *)
Definition unwrap {A} (o : option A) : Result A :=
  match o with
  | Some a => Ok a
  | None => Fail (Panic "called `Option::unwrap()` on a `None` value")
  end.

Definition rbind {A B} (r : Result A) (k : A -> Result B) : Result B :=
  match r with
  | Ok a => k a
  | Fail s => Fail s
  end.

Notation "'let?' x ':=' r 'in' k" := (rbind r (fun x => k))
  (at level 200, x name, r at level 100, k at level 200).

(** [std::str::from_utf8(s).unwrap()]. *)
Definition from_utf8_unwrap (s : list Byte.byte) : Result (list Byte.byte) :=
  if utf8_valid s then Ok s
  else Fail (Panic "called `Result::unwrap()` on an `Err` value: Utf8Error").

(* ------------------------------------------------------------------------- *)
(** ** Header decoding, lines 167-179 *)

Record WavHeader := {
  riff_id : list Byte.byte;
  file_size : Z;
  file_type : list Byte.byte;
  chunk_format : list Byte.byte;
  size_of_format_section : Z;
  format : Z;
  num_of_channels : Z;
  sampling_rate : Z;
  byte_rate : Z;
  block_align : Z;
  bits_per_sample : Z;
  data_section_id : list Byte.byte;
  size_of_data : Z
}.

Definition decode_header (header : list Byte.byte) : Result WavHeader :=
  let? riff_id := from_utf8_unwrap (slice header 0 4) in
  let? file_size := unwrap (u32_from_le_bytes (slice header 4 8)) in
  let? file_type := from_utf8_unwrap (slice header 8 12) in
  let? chunk_format := from_utf8_unwrap (slice header 12 16) in
  let? size_of_format_section := unwrap (u32_from_le_bytes (slice header 16 20)) in
  let? format := unwrap (u16_from_le_bytes (slice header 20 22)) in
  let? num_of_channels := unwrap (u16_from_le_bytes (slice header 22 24)) in
  let? sampling_rate := unwrap (u32_from_le_bytes (slice header 24 28)) in
  let? byte_rate := unwrap (u32_from_le_bytes (slice header 28 32)) in
  let? block_align := unwrap (u16_from_le_bytes (slice header 32 34)) in
  let? bits_per_sample := unwrap (u16_from_le_bytes (slice header 34 36)) in
  let? data_section_id := from_utf8_unwrap (slice header 36 40) in
  let? size_of_data := unwrap (u32_from_le_bytes (slice header 40 44)) in
  Ok {| riff_id := riff_id; file_size := file_size; file_type := file_type;
        chunk_format := chunk_format;
        size_of_format_section := size_of_format_section;
        format := format; num_of_channels := num_of_channels;
        sampling_rate := sampling_rate; byte_rate := byte_rate;
        block_align := block_align; bits_per_sample := bits_per_sample;
        data_section_id := data_section_id; size_of_data := size_of_data |}.

(* ------------------------------------------------------------------------- *)
(** ** Collaborators: the SD card file and the I2S driver *)

(** [SlotMode] of [StdSlotConfig]. *)
Inductive SlotMode := Mono | Stereo.

(** Observable calls on the collaborators, in order. [SdRead d] is a read
    that returned the bytes [d]; [I2sWrite d] is a completed [write_all]. *)
Inductive Event :=
| I2sConfigure (rate : Z) (bits : Z) (mode : SlotMode)
| SdRead (d : list Byte.byte)
| SdSeek (off : nat)
| TxEnable
| I2sWrite (d : list Byte.byte)
| TxDisable.

(** The environment of one run: the contents of [WAV_FILE], the file
    offsets at which the card fails a read, the stream positions
    ([data_read] before the read of the iteration) at which the I2S write
    fails, whether [tx_enable] / [tx_disable] fail, and whether opening
    the card, its volume, its root directory or [WAV_FILE] fails. *)
Record Env := {
  file : list Byte.byte;
  read_fault : nat -> bool;
  write_fault : nat -> bool;
  enable_fails : bool;
  disable_fails : bool;
  sd_open_fails : bool
}.

(** The run state: the file cursor of [wav_file] and the calls so far. *)
Record St := { cursor : nat; trace : list Event }.

Definition M (A : Type) := St -> Result A * St.

Definition ret {A} (a : A) : M A := fun s => (Ok a, s).
Definition stop {A} (e : Stop) : M A := fun s => (Fail e, s).
Definition bind {A B} (m : M A) (k : A -> M B) : M B :=
  fun s => match m s with
           | (Ok a, s') => k a s'
           | (Fail e, s') => (Fail e, s')
           end.
Definition lift {A} (r : Result A) : M A := fun s => (r, s).

Notation "'let!' x ':=' m 'in' k" := (bind m (fun x => k))
  (at level 200, x name, m at level 100, k at level 200).
Notation "m ;; k" := (bind m (fun _ => k)) (at level 100, right associativity).

Definition emit (e : Event) : M unit :=
  fun s => (Ok tt, {| cursor := cursor s; trace := trace s ++ [e] |}).

Definition set_cursor (c : nat) : M unit :=
  fun s => (Ok tt, {| cursor := c; trace := trace s |}).

Definition get_cursor : M nat := fun s => (Ok (cursor s), s).

(** [Result::expect]: an error becomes a panic. *)
Definition expect {A} (msg : string) (m : M A) : M A :=
  fun s => match m s with
           | (Fail (Error _), s') => (Fail (Panic msg), s')
           | r => r
           end.

(** [volume_mgr.read(wav_file, buf)] with [buf] of List.length [len]: fills the
    buffer from the cursor until it is full or the file ends, and returns
    the bytes read ([Ok(0)] at end of file). *)
Definition sd_read (env : Env) (len : nat) : M (list Byte.byte) :=
  let! c := get_cursor in
  if read_fault env c then stop (Error SdCardError)
  else
    let d := firstn len (skipn c (file env)) in
    set_cursor (c + List.length d)%nat ;;
    emit (SdRead d) ;;
    ret d.

(** [volume_mgr.file_seek_from_start(wav_file, off)]: an offset past the
    end of the file is [InvalidOffset]. *)
Definition sd_seek (env : Env) (off : nat) : M unit :=
  if Nat.ltb (List.length (file env)) off then stop (Error SdCardError)
  else set_cursor off ;; emit (SdSeek off).

(** [i2s.write_all(d, BLOCK_TIME.into())]. *)
Definition i2s_write_all (env : Env) (pos : nat) (d : list Byte.byte) : M unit :=
  if write_fault env pos then stop (Error I2sError) else emit (I2sWrite d).

(** [i2s.tx_enable().unwrap()] and [i2s.tx_disable().unwrap()]. *)
Definition tx_enable (env : Env) : M unit :=
  if enable_fails env then stop (Panic "tx_enable") else emit TxEnable.

Definition tx_disable (env : Env) : M unit :=
  if disable_fails env then stop (Panic "tx_disable") else emit TxDisable.

(* ------------------------------------------------------------------------- *)
(** ** [main] *)

Definition SAMPLE_RATE_HZ : Z := 44100.
Definition BYTES_IN_HEADER : nat := 44.
Definition CHUNK_SIZE : nat := 1024.

(** The [while data_read < size_of_data] loop, lines 234-242. [fuel]
    bounds the number of iterations; running out of it is [OutOfFuel]. *)
Fixpoint transfer (env : Env) (fuel : nat) (size_of_data : nat)
    (data_read : nat) : M unit :=
  if Nat.ltb data_read size_of_data then
    match fuel with
    | O => stop OutOfFuel
    | S fuel' =>
        let! bytes_read := sd_read env CHUNK_SIZE in
        i2s_write_all env data_read bytes_read ;;
        transfer env fuel' size_of_data (data_read + List.length bytes_read)
    end
  else ret tt.

(** Lines 139-157: [sdcard.num_bytes()], [open_volume], [open_root_dir]
    and [open_file_in_dir(root_dir, WAV_FILE, ..)], each mapped to an
    "SdCard error" and returned with [?]; none of them moves the cursor
    of [wav_file] or is observable here otherwise. *)
Definition sd_open (env : Env) : M unit :=
  if sd_open_fails env then stop (Error SdCardError) else ret tt.

(** [main] from the opening of the card (line 139) to [tx_enable]
    (line 232); it returns the decoded header. Logging and timing are not
    observable here. *)
Definition main_setup_tail (env : Env) : M WavHeader :=
  sd_open env ;;
  let! hd := expect "read header from wav file" (sd_read env BYTES_IN_HEADER) in
  let header := hd ++ List.repeat Byte.x00 (BYTES_IN_HEADER - List.length hd) in
  let! h := lift (decode_header header) in
  expect "failed to seek" (sd_seek env BYTES_IN_HEADER) ;;
  let! _fake := expect "read" (sd_read env 1024) in
  sd_seek env BYTES_IN_HEADER ;;
  tx_enable env ;;
  ret h.

(** [main] up to [tx_enable]: the creation of the I2S driver with
    [StdClkConfig::from_sample_rate_hz(SAMPLE_RATE_HZ)], [Bits16] and
    [SlotMode::Mono] (lines 113-129), then the rest. The taking of the
    peripherals, the SPI drivers and the chip-select pin, all built from
    fixed pins and settings (lines 55-75, 129 and 135), are taken to
    succeed. *)
Definition main_setup (env : Env) : M WavHeader :=
  emit (I2sConfigure SAMPLE_RATE_HZ 16 Mono) ;;
  main_setup_tail env.

(** The rest of [main]: the loop over [size_of_data as usize] and
    [tx_disable] (lines 234-244). *)
Definition main_body (env : Env) (fuel : nat) : M unit :=
  let! h := main_setup env in
  transfer env fuel (Z.to_nat (size_of_data h)) 0 ;;
  tx_disable env.

Definition main_run (env : Env) (fuel : nat) : Result unit * St :=
  main_body env fuel {| cursor := 0; trace := [] |}.

(** The writes of a trace. *)
Fixpoint writes (tr : list Event) : list (list Byte.byte) :=
  match tr with
  | [] => []
  | I2sWrite d :: tr' => d :: writes tr'
  | _ :: tr' => writes tr'
  end.

(* ------------------------------------------------------------------------- *)
(** ** Test inputs: a WAV file built from the layout table of the spec *)

Definition le_u32_bytes (v : Z) : list Byte.byte :=
  [byte_of_Z v; byte_of_Z (v / 2^8); byte_of_Z (v / 2^16); byte_of_Z (v / 2^24)].

Definition le_u16_bytes (v : Z) : list Byte.byte :=
  [byte_of_Z v; byte_of_Z (v / 2^8)].

Definition tag (s : string) : list Byte.byte := list_byte_of_string s.

(** The 44-byte header laid out as in the table "WAV header, byte-exact
    layout" of the spec, all integers little-endian. *)
Definition layout_header (h : WavHeader) : list Byte.byte :=
  riff_id h ++ le_u32_bytes (file_size h) ++ file_type h ++ chunk_format h
  ++ le_u32_bytes (size_of_format_section h) ++ le_u16_bytes (format h)
  ++ le_u16_bytes (num_of_channels h) ++ le_u32_bytes (sampling_rate h)
  ++ le_u32_bytes (byte_rate h) ++ le_u16_bytes (block_align h)
  ++ le_u16_bytes (bits_per_sample h) ++ data_section_id h
  ++ le_u32_bytes (size_of_data h).

(** A mono 16-bit header with the given tags, rate and data size. *)
Definition mk_header (riff wave fmt data : string) (rate chans : Z) (size : Z)
  : WavHeader :=
  {| riff_id := tag riff; file_size := 36 + size; file_type := tag wave;
     chunk_format := tag fmt; size_of_format_section := 16; format := 1;
     num_of_channels := chans; sampling_rate := rate;
     byte_rate := rate * 2 * chans; block_align := 2 * chans;
     bits_per_sample := 16; data_section_id := tag data;
     size_of_data := size |}.

(** A fault-free environment whose file is [header ++ payload]. *)
Definition clean_env (f : list Byte.byte) : Env :=
  {| file := f; read_fault := fun _ => false; write_fault := fun _ => false;
     enable_fails := false; disable_fails := false;
     sd_open_fails := false |}.

Definition sample_file (rate : Z) (size : Z) (payload_len : nat) : list Byte.byte :=
  layout_header (mk_header "RIFF" "WAVE" "fmt " "data" rate 1 size)
  ++ List.repeat Byte.x01 payload_len.

(* ------------------------------------------------------------------------- *)
(** ** Predicates and inputs the statements use *)

(** The four tag regions of a header decode with [from_utf8]. *)
Definition tags_valid (h : list Byte.byte) : bool :=
  utf8_valid (slice h 0 4) && utf8_valid (slice h 8 12)
  && utf8_valid (slice h 12 16) && utf8_valid (slice h 36 40).

(** The integer fields of a header fit their [u16] / [u32] types. *)
Definition fields_in_range (hd : WavHeader) : bool :=
  let u32 v := (0 <=? v) && (v <? 2^32) in
  let u16 v := (0 <=? v) && (v <? 2^16) in
  u32 (file_size hd) && u32 (size_of_format_section hd) && u16 (format hd)
  && u16 (num_of_channels hd) && u32 (sampling_rate hd) && u32 (byte_rate hd)
  && u16 (block_align hd) && u16 (bits_per_sample hd) && u32 (size_of_data hd).

(** A tag region: four bytes that [from_utf8] accepts. *)
Definition good_tag (t : list Byte.byte) : bool :=
  Nat.eqb (List.length t) 4 && utf8_valid t.

(** A computation is framed when the calls it makes do not depend on the
    calls made before it, and are appended to them. *)
Definition framed {A} (m : M A) : Prop :=
  forall c t, m {| cursor := c; trace := t |} =
    let (r, s') := m {| cursor := c; trace := [] |} in
    (r, {| cursor := cursor s'; trace := t ++ trace s' |}).

(** The calls [main] makes before the loop when nothing fails: the driver
    creation, the header read, the seek, the timing read of 1024 bytes,
    the second seek and [tx_enable]. *)
Definition main_prefix (env : Env) : list Event :=
  [I2sConfigure SAMPLE_RATE_HZ 16 Mono; SdRead (firstn 44 (file env));
   SdSeek 44; SdRead (firstn 1024 (skipn 44 (file env))); SdSeek 44; TxEnable].

(** The conditions under which [main] reaches the loop: a file of at
    least 44 bytes, no card fault at offsets 0 and 44, tag regions that
    [from_utf8] accepts, a working [tx_enable], and a card, volume and
    file that open. *)
Definition reaches_loop (env : Env) : Prop :=
  (44 <= List.length (file env))%nat /\ read_fault env 0 = false
  /\ read_fault env 44 = false /\ tags_valid (firstn 44 (file env)) = true
  /\ enable_fails env = false /\ sd_open_fails env = false.

(** The calls of iterations that read [d] and wrote it back. *)
Definition rw_pairs (ds : list (list Byte.byte)) : list Event :=
  flat_map (fun d => [SdRead d; I2sWrite d]) ds.

(** Total number of bytes in a list of chunks. *)
Definition total (ds : list (list Byte.byte)) : nat :=
  list_sum (map (@List.length _) ds).

(** The write sizes the spec describes for [S] bytes in chunks of 1024:
    [S / 1024] full chunks and then [S mod 1024] if it is not zero. *)
Definition chunk_sizes (r : nat) : list nat :=
  List.repeat 1024%nat (r / 1024)%nat
  ++ (if Nat.eqb (r mod 1024)%nat 0 then [] else [(r mod 1024)%nat]).

(** No card read and no I2S write fails. *)
Definition no_faults (env : Env) : Prop :=
  (forall c, read_fault env c = false) /\ (forall p, write_fault env p = false).

(** [m] appends to the calls made so far only calls satisfying [P]. *)
Definition only_events {A} (P : Event -> Prop) (m : M A) : Prop :=
  forall s, exists tr, trace (snd (m s)) = trace s ++ tr /\ Forall P tr.

(* ------------------------------------------------------------------------- *)
(** ** Concrete inputs *)

(** A 44-byte header whose first byte, [0xFF], is not UTF-8. *)
Definition header_bad_utf8 : list Byte.byte :=
  Byte.xff :: skipn 1 (layout_header (mk_header "RIFF" "WAVE" "fmt " "data" 44100 1 2500)).

(** A header whose [riff_id] is "RIFX", followed by its 2048 data bytes. *)
Definition env_riffx : Env :=
  clean_env (layout_header (mk_header "RIFX" "WAVE" "fmt " "data" 44100 1 2048)
             ++ List.repeat Byte.x01 2048).

(** 2500 data bytes at 22050 Hz. *)
Definition env_22050 : Env := clean_env (sample_file 22050 2500 2500).

(** 2500 data bytes at 8000 Hz, stereo. *)
Definition env_8000_stereo : Env :=
  clean_env (layout_header (mk_header "RIFF" "WAVE" "fmt " "data" 8000 2 2500)
             ++ List.repeat Byte.x01 2500).

(** [data_size_bytes = 2500] and exactly 2500 data bytes. *)
Definition env_2500 : Env := clean_env (sample_file 44100 2500 2500).

(** [data_size_bytes = 2500] and 3072 bytes after the header (a trailing
    chunk after the data section). *)
Definition env_2500_trailing : Env := clean_env (sample_file 44100 2500 3072).

(** [data_size_bytes = 2500] but only 2000 data bytes in the file. *)
Definition env_2500_truncated : Env := clean_env (sample_file 44100 2500 2000).

(** 2500 data bytes; the card fails the read at offset [44 + 1024]. *)
Definition env_read_error : Env :=
  {| file := sample_file 44100 2500 2500;
     read_fault := fun c => Nat.eqb c 1068; write_fault := fun _ => false;
     enable_fails := false; disable_fails := false;
     sd_open_fails := false |}.

Definition header_2500 : WavHeader := mk_header "RIFF" "WAVE" "fmt " "data" 44100 1 2500.

(** [env_2500] with [tx_enable] failing. *)
Definition env_enable_fails : Env :=
  {| file := sample_file 44100 2500 2500;
     read_fault := fun _ => false; write_fault := fun _ => false;
     enable_fails := true; disable_fails := false;
     sd_open_fails := false |}.

(** [env_2500] on a card where [WAV_FILE] does not open. *)
Definition env_no_file : Env :=
  {| file := sample_file 44100 2500 2500;
     read_fault := fun _ => false; write_fault := fun _ => false;
     enable_fails := false; disable_fails := false;
     sd_open_fails := true |}.

(** An empty file. *)
Definition env_empty : Env := clean_env [].

(** The header of [env_22050]. *)
Definition header_22050 : WavHeader := mk_header "RIFF" "WAVE" "fmt " "data" 22050 1 2500.

(* ------------------------------------------------------------------------- *)

(* ------------------------------------------------------------------------- *)
(** ** Header decoding: general facts *)

Lemma slice_length (h : list Byte.byte) (a b : nat) :
  (a <= b <= List.length h)%nat -> List.length (slice h a b) = (b - a)%nat.
Proof.
  intros Hab. unfold slice.
  rewrite length_firstn, length_skipn. lia.
Qed.

Lemma u32_from_le_bytes_len (s : list Byte.byte) :
  List.length s = 4%nat -> exists v, u32_from_le_bytes s = Some v.
Proof.
  intros Hs.
  destruct s as [|b0 [|b1 [|b2 [|b3 [|b4 s]]]]]; try discriminate.
  simpl. eauto.
Qed.

Lemma u16_from_le_bytes_len (s : list Byte.byte) :
  List.length s = 2%nat -> exists v, u16_from_le_bytes s = Some v.
Proof.
  intros Hs.
  destruct s as [|b0 [|b1 [|b2 s]]]; try discriminate.
  simpl. eauto.
Qed.

Ltac slice_int h Hlen lo hi :=
  first
    [ destruct (u32_from_le_bytes_len (slice h lo hi)) as [? ->];
        [rewrite slice_length; lia|]
    | destruct (u16_from_le_bytes_len (slice h lo hi)) as [? ->];
        [rewrite slice_length; lia|] ].

(** On a 44-byte array every integer field decodes; the only way decoding
    can stop is the [unwrap] of [from_utf8] on a tag region. *)
Lemma decode_header_cases (h : list Byte.byte) :
  List.length h = 44%nat ->
  (tags_valid h = false ->
     exists msg, decode_header h = Fail (Panic msg)) /\
  (tags_valid h = true ->
     exists hd, decode_header h = Ok hd
       /\ riff_id hd = slice h 0 4
       /\ u32_from_le_bytes (slice h 4 8) = Some (file_size hd)
       /\ file_type hd = slice h 8 12
       /\ chunk_format hd = slice h 12 16
       /\ u32_from_le_bytes (slice h 16 20) = Some (size_of_format_section hd)
       /\ u16_from_le_bytes (slice h 20 22) = Some (format hd)
       /\ u16_from_le_bytes (slice h 22 24) = Some (num_of_channels hd)
       /\ u32_from_le_bytes (slice h 24 28) = Some (sampling_rate hd)
       /\ u32_from_le_bytes (slice h 28 32) = Some (byte_rate hd)
       /\ u16_from_le_bytes (slice h 32 34) = Some (block_align hd)
       /\ u16_from_le_bytes (slice h 34 36) = Some (bits_per_sample hd)
       /\ data_section_id hd = slice h 36 40
       /\ u32_from_le_bytes (slice h 40 44) = Some (size_of_data hd)).
Proof.
  intros Hlen.
  unfold decode_header, tags_valid, from_utf8_unwrap.
  slice_int h Hlen 4%nat 8%nat.
  slice_int h Hlen 16%nat 20%nat.
  slice_int h Hlen 20%nat 22%nat.
  slice_int h Hlen 22%nat 24%nat.
  slice_int h Hlen 24%nat 28%nat.
  slice_int h Hlen 28%nat 32%nat.
  slice_int h Hlen 32%nat 34%nat.
  slice_int h Hlen 34%nat 36%nat.
  slice_int h Hlen 40%nat 44%nat.
  destruct (utf8_valid (slice h 0 4)), (utf8_valid (slice h 8 12)),
    (utf8_valid (slice h 12 16)), (utf8_valid (slice h 36 40));
    simpl; split; intros E; try discriminate; eauto.
  eexists; split; [reflexivity|]; simpl; repeat split.
Qed.

Lemma u8_byte_of_Z (z : Z) : u8 (byte_of_Z z) = z mod 256.
Proof.
  unfold u8, byte_of_Z.
  assert (Hr : 0 <= z mod 256 < 256) by (apply Z.mod_pos_bound; lia).
  destruct (Byte.of_N (Z.to_N (z mod 256))) as [b|] eqn:E.
  - apply Byte.to_of_N in E. rewrite E. apply Z2N.id. lia.
  - apply Byte.of_N_None_iff in E. lia.
Qed.

Lemma u32_roundtrip (v : Z) :
  0 <= v < 2^32 -> u32_from_le_bytes (le_u32_bytes v) = Some v.
Proof.
  intros Hv. unfold le_u32_bytes. cbn [u32_from_le_bytes].
  rewrite !u8_byte_of_Z. f_equal.
  change (2^8) with 256 in *. change (2^16) with 65536 in *.
  change (2^24) with 16777216 in *. change (2^32) with 4294967296 in *.
  assert (E2 : v / 65536 = v / 256 / 256)
    by (rewrite Z.div_div by lia; reflexivity).
  assert (E3 : v / 16777216 = v / 256 / 256 / 256)
    by (rewrite !Z.div_div by lia; reflexivity).
  rewrite E2, E3.
  pose proof (Z.div_mod v 256 ltac:(lia)) as D1.
  pose proof (Z.div_mod (v / 256) 256 ltac:(lia)) as D2.
  pose proof (Z.div_mod (v / 256 / 256) 256 ltac:(lia)) as D3.
  pose proof (Z.mod_pos_bound v 256 ltac:(lia)).
  pose proof (Z.mod_pos_bound (v / 256) 256 ltac:(lia)).
  pose proof (Z.mod_pos_bound (v / 256 / 256) 256 ltac:(lia)).
  assert (Hq : 0 <= v / 256 / 256 / 256 < 256).
  { rewrite !Z.div_div by lia. split.
    - apply Z.div_pos; lia.
    - apply Z.div_lt_upper_bound; lia. }
  rewrite (Z.mod_small (v / 256 / 256 / 256) 256 Hq).
  lia.
Qed.

Lemma u16_roundtrip (v : Z) :
  0 <= v < 2^16 -> u16_from_le_bytes (le_u16_bytes v) = Some v.
Proof.
  intros Hv. unfold le_u16_bytes. cbn [u16_from_le_bytes].
  rewrite !u8_byte_of_Z. f_equal.
  change (2^8) with 256 in *. change (2^16) with 65536 in *.
  pose proof (Z.div_mod v 256 ltac:(lia)) as D1.
  pose proof (Z.mod_pos_bound v 256 ltac:(lia)).
  assert (Hq : 0 <= v / 256 < 256).
  { split. - apply Z.div_pos; lia. - apply Z.div_lt_upper_bound; lia. }
  rewrite (Z.mod_small (v / 256) 256 Hq).
  lia.
Qed.

Lemma u32_roundtrip_bytes (v : Z) :
  0 <= v < 2^32 ->
  u32_from_le_bytes
    [byte_of_Z v; byte_of_Z (v / 256); byte_of_Z (v / 65536);
     byte_of_Z (v / 16777216)]
  = Some v.
Proof. exact (u32_roundtrip v). Qed.

Lemma u16_roundtrip_bytes (v : Z) :
  0 <= v < 2^16 -> u16_from_le_bytes [byte_of_Z v; byte_of_Z (v / 256)] = Some v.
Proof. exact (u16_roundtrip v). Qed.

Lemma good_tag_shape (t : list Byte.byte) :
  good_tag t = true ->
  exists a b c d, t = [a; b; c; d] /\ utf8_valid [a; b; c; d] = true.
Proof.
  unfold good_tag. intros H. apply andb_true_iff in H as [Hl Hv].
  apply Nat.eqb_eq in Hl.
  destruct t as [|a [|b [|c [|d [|e t]]]]]; try discriminate.
  eauto 6.
Qed.

Lemma range_u32 (v : Z) : (0 <=? v) && (v <? 2^32) = true -> 0 <= v < 2^32.
Proof. intros H. apply andb_true_iff in H as [H1 H2]. lia. Qed.

Lemma range_u16 (v : Z) : (0 <=? v) && (v <? 2^16) = true -> 0 <= v < 2^16.
Proof. intros H. apply andb_true_iff in H as [H1 H2]. lia. Qed.

(** Decoding inverts the layout of the spec for any four valid tags. *)
Lemma decode_layout_header (hd : WavHeader) :
  good_tag (riff_id hd) = true -> good_tag (file_type hd) = true ->
  good_tag (chunk_format hd) = true -> good_tag (data_section_id hd) = true ->
  fields_in_range hd = true ->
  decode_header (layout_header hd) = Ok hd.
Proof.
  destruct hd as [r fs ft cf fss fm nc sr br ba bps ds sd]; cbn.
  intros Hr Hft Hcf Hds Hrange.
  apply good_tag_shape in Hr as (r0 & r1 & r2 & r3 & -> & Vr).
  apply good_tag_shape in Hft as (f0 & f1 & f2 & f3 & -> & Vft).
  apply good_tag_shape in Hcf as (c0 & c1 & c2 & c3 & -> & Vcf).
  apply good_tag_shape in Hds as (d0 & d1 & d2 & d3 & -> & Vds).
  unfold fields_in_range in Hrange; cbn in Hrange.
  repeat match type of Hrange with
         | _ && _ = true => apply andb_true_iff in Hrange as [Hrange ?]
         end.
  repeat match goal with
         | H : (0 <=? ?v) && (?v <? 2^32) = true |- _ => apply range_u32 in H
         | H : (0 <=? ?v) && (?v <? 2^16) = true |- _ => apply range_u16 in H
         end.
  unfold layout_header, decode_header; cbn [riff_id file_size file_type
    chunk_format size_of_format_section format num_of_channels sampling_rate
    byte_rate block_align bits_per_sample data_section_id size_of_data].
  unfold le_u32_bytes, le_u16_bytes.
  cbn [slice firstn skipn app Nat.sub].
  unfold from_utf8_unwrap. rewrite Vr, Vft, Vcf, Vds.
  rewrite (u32_roundtrip_bytes fs), (u32_roundtrip_bytes fss),
    (u16_roundtrip_bytes fm), (u16_roundtrip_bytes nc),
    (u32_roundtrip_bytes sr), (u32_roundtrip_bytes br),
    (u16_roundtrip_bytes ba), (u16_roundtrip_bytes bps) by lia.
  change (2^8) with 256; change (2^16) with 65536; change (2^24) with 16777216.
  rewrite (u32_roundtrip_bytes sd) by lia.
  reflexivity.
Qed.

(* ------------------------------------------------------------------------- *)
(** ** Runs of [main]: framing *)

Create HintDb framing.

Lemma ret_framed {A} (a : A) : framed (ret a).
Proof. intros c t. unfold ret. rewrite app_nil_r. reflexivity. Qed.

Lemma stop_framed {A} (e : Stop) : @framed A (stop e).
Proof. intros c t. unfold stop. rewrite app_nil_r. reflexivity. Qed.

Lemma emit_framed (e : Event) : framed (emit e).
Proof. intros c t. reflexivity. Qed.

Lemma set_cursor_framed (n : nat) : framed (set_cursor n).
Proof. intros c t. unfold set_cursor. simpl. rewrite app_nil_r. reflexivity. Qed.

Lemma get_cursor_framed : framed get_cursor.
Proof. intros c t. unfold get_cursor. simpl. rewrite app_nil_r. reflexivity. Qed.

Lemma bind_framed {A B} (m : M A) (k : A -> M B) :
  framed m -> (forall a, framed (k a)) -> framed (bind m k).
Proof.
  intros Hm Hk c t. unfold bind.
  rewrite (Hm c t).
  destruct (m {| cursor := c; trace := [] |}) as [[a|e] [c' t']]; simpl.
  - rewrite (Hk a c' (t ++ t')), (Hk a c' t').
    destruct (k a {| cursor := c'; trace := [] |}) as [r [c'' t'']]; simpl.
    rewrite app_assoc. reflexivity.
  - reflexivity.
Qed.

Lemma if_framed {A} (b : bool) (m1 m2 : M A) :
  framed m1 -> framed m2 -> framed (if b then m1 else m2).
Proof. destruct b; auto. Qed.

Lemma expect_framed {A} (msg : string) (m : M A) :
  framed m -> framed (expect msg m).
Proof.
  intros Hm c t. unfold expect. rewrite (Hm c t).
  destruct (m {| cursor := c; trace := [] |}) as [[a|[| |]] s']; reflexivity.
Qed.

#[local] Hint Resolve ret_framed stop_framed emit_framed set_cursor_framed
  get_cursor_framed bind_framed if_framed expect_framed : framing.

Lemma sd_read_framed env len : framed (sd_read env len).
Proof.
  unfold sd_read. apply bind_framed; [auto with framing|]. intros c.
  apply if_framed; auto with framing.
Qed.

Lemma sd_seek_framed env off : framed (sd_seek env off).
Proof. unfold sd_seek. auto with framing. Qed.

Lemma i2s_write_all_framed env pos d : framed (i2s_write_all env pos d).
Proof. unfold i2s_write_all. auto with framing. Qed.

Lemma tx_disable_framed env : framed (tx_disable env).
Proof. unfold tx_disable. auto with framing. Qed.

#[local] Hint Resolve sd_read_framed sd_seek_framed i2s_write_all_framed
  tx_disable_framed : framing.

Lemma transfer_framed env fuel size dr : framed (transfer env fuel size dr).
Proof.
  revert dr. induction fuel as [|fuel IH]; intros dr; simpl.
  - destruct (Nat.ltb dr size); auto with framing.
  - destruct (Nat.ltb dr size); auto with framing.
Qed.

(* ------------------------------------------------------------------------- *)
(** ** Runs of [main]: up to the transfer loop *)

Lemma bind_ok {A B} (m : M A) (k : A -> M B) s a s' :
  m s = (Ok a, s') -> bind m k s = k a s'.
Proof. intros E. unfold bind. rewrite E. reflexivity. Qed.

Lemma bind_fail {A B} (m : M A) (k : A -> M B) s e s' :
  m s = (Fail e, s') -> bind m k s = (Fail e, s').
Proof. intros E. unfold bind. rewrite E. reflexivity. Qed.

Lemma expect_ok {A} msg (m : M A) s a s' :
  m s = (Ok a, s') -> expect msg m s = (Ok a, s').
Proof. intros E. unfold expect. rewrite E. reflexivity. Qed.

Lemma sd_read_ok env len c t :
  read_fault env c = false ->
  sd_read env len {| cursor := c; trace := t |} =
  (Ok (firstn len (skipn c (file env))),
   {| cursor := c + List.length (firstn len (skipn c (file env)));
      trace := t ++ [SdRead (firstn len (skipn c (file env)))] |}).
Proof. intros H. unfold sd_read, bind, get_cursor. simpl. rewrite H. reflexivity. Qed.

Lemma sd_read_fault env len c t :
  read_fault env c = true ->
  sd_read env len {| cursor := c; trace := t |} =
  (Fail (Error SdCardError), {| cursor := c; trace := t |}).
Proof. intros H. unfold sd_read, bind, get_cursor. simpl. rewrite H. reflexivity. Qed.

Lemma sd_seek_ok env off s :
  (off <= List.length (file env))%nat ->
  sd_seek env off s =
  (Ok tt, {| cursor := off; trace := trace s ++ [SdSeek off] |}).
Proof.
  intros H. unfold sd_seek.
  replace (Nat.ltb (List.length (file env)) off) with false
    by (symmetry; apply Nat.ltb_ge; lia).
  reflexivity.
Qed.

Lemma sd_open_ok env s : sd_open_fails env = false -> sd_open env s = (Ok tt, s).
Proof. intros H. unfold sd_open. rewrite H. reflexivity. Qed.

Lemma main_setup_ok (env : Env) :
  reaches_loop env ->
  exists h, decode_header (firstn 44 (file env)) = Ok h /\
    main_setup env {| cursor := 0; trace := [] |} =
    (Ok h, {| cursor := 44; trace := main_prefix env |}).
Proof.
  intros (Hlen & H0 & H44 & Htags & Hen & Hop).
  assert (Hl44 : List.length (firstn 44 (file env)) = 44%nat)
    by (rewrite length_firstn; lia).
  destruct (decode_header_cases (firstn 44 (file env)) Hl44) as [_ Hok].
  destruct (Hok Htags) as (h & Hdec & _).
  exists h. split; [exact Hdec|].
  unfold main_setup.
  erewrite bind_ok by reflexivity.
  unfold main_setup_tail.
  erewrite bind_ok by (apply sd_open_ok, Hop).
  erewrite bind_ok by (apply expect_ok, sd_read_ok, H0).
  unfold BYTES_IN_HEADER. cbn [cursor trace skipn Nat.add app].
  rewrite Hl44, Nat.sub_diag, app_nil_r.
  erewrite bind_ok by (unfold lift; rewrite Hdec; reflexivity).
  erewrite bind_ok by (apply expect_ok, sd_seek_ok; exact Hlen).
  erewrite bind_ok by (apply expect_ok, sd_read_ok, H44).
  erewrite bind_ok by (apply sd_seek_ok; exact Hlen).
  erewrite bind_ok by (unfold tx_enable; rewrite Hen; reflexivity).
  reflexivity.
Qed.

Lemma main_run_prefix (env : Env) (fuel : nat) :
  reaches_loop env ->
  exists h, decode_header (firstn 44 (file env)) = Ok h /\
    main_run env fuel =
    bind (transfer env fuel (Z.to_nat (size_of_data h)) 0)
         (fun _ => tx_disable env)
         {| cursor := 44; trace := main_prefix env |}.
Proof.
  intros Hr. destruct (main_setup_ok env Hr) as (h & Hdec & Hs).
  exists h. split; [exact Hdec|].
  unfold main_run, main_body. erewrite bind_ok by exact Hs. reflexivity.
Qed.



(* ------------------------------------------------------------------------- *)
(** ** The transfer loop *)

Lemma writes_app (t1 t2 : list Event) : writes (t1 ++ t2) = writes t1 ++ writes t2.
Proof.
  induction t1 as [|[] t1 IH]; simpl; rewrite ?IH; reflexivity.
Qed.

Lemma writes_rw_pairs ds : writes (rw_pairs ds) = ds.
Proof. induction ds as [|d ds IH]; simpl; rewrite ?IH; reflexivity. Qed.

Lemma transfer_unfold env fuel size dr s :
  transfer env (S fuel) size dr s =
  (if Nat.ltb dr size then
     bind (sd_read env CHUNK_SIZE)
       (fun bytes_read => i2s_write_all env dr bytes_read ;;
          transfer env fuel size (dr + List.length bytes_read))
   else ret tt) s.
Proof. reflexivity. Qed.

(** One iteration without fault: read up to 1024 bytes at the cursor and
    write them. *)
Lemma transfer_step env fuel size dr c t :
  Nat.ltb dr size = true -> read_fault env c = false -> write_fault env dr = false ->
  let d := firstn CHUNK_SIZE (skipn c (file env)) in
  transfer env (S fuel) size dr {| cursor := c; trace := t |} =
  transfer env fuel size (dr + List.length d)
    {| cursor := c + List.length d; trace := t ++ [SdRead d; I2sWrite d] |}.
Proof.
  intros Hlt Hr Hw d. rewrite transfer_unfold, Hlt.
  erewrite bind_ok by (apply sd_read_ok, Hr).
  erewrite bind_ok by (unfold i2s_write_all; rewrite Hw; reflexivity).
  simpl. rewrite <- app_assoc. reflexivity.
Qed.

Ltac exit_nil :=
  split; [simpl; rewrite app_nil_r; reflexivity|];
  split; [intros i Hi; simpl in Hi; lia|];
  split; [unfold total; simpl; lia|];
  split; [left; reflexivity|constructor].

(** Invariant of the loop, for any card and I2S behaviour: when it exits
    normally, its calls are pairs of a read of [d] and a write of the same
    [d]; every iteration started with [data_read < size]; each read is at
    most 1024 bytes; at exit [size <= data_read], and the last iteration
    started below [size]. *)
Lemma transfer_ok_inv env fuel size dr s s' :
  transfer env fuel size dr s = (Ok tt, s') ->
  exists ds, trace s' = trace s ++ rw_pairs ds
    /\ (forall i, (i < List.length ds)%nat -> (dr + total (firstn i ds) < size)%nat)
    /\ (size <= dr + total ds)%nat
    /\ (ds = [] \/ (dr + total ds < size + 1024)%nat)
    /\ Forall (fun d => (List.length d <= 1024)%nat) ds.
Proof.
  revert dr s. induction fuel as [|fuel IH]; intros dr [c t] H.
  - simpl in H. destruct (Nat.ltb dr size) eqn:Hlt; [discriminate|].
    unfold ret in H. injection H as <-. exists [].
    apply Nat.ltb_ge in Hlt. exit_nil.
  - rewrite transfer_unfold in H.
    destruct (Nat.ltb dr size) eqn:Hlt.
    2:{ unfold ret in H. injection H as <-. exists [].
        apply Nat.ltb_ge in Hlt. exit_nil. }
    apply Nat.ltb_lt in Hlt.
    destruct (read_fault env c) eqn:Hr.
    { rewrite (bind_fail _ _ _ _ _ (sd_read_fault env CHUNK_SIZE c t Hr)) in H.
      discriminate. }
    rewrite (bind_ok _ _ _ _ _ (sd_read_ok env CHUNK_SIZE c t Hr)) in H.
    set (d := firstn CHUNK_SIZE (skipn c (file env))) in *.
    assert (Hd : (List.length d <= 1024)%nat)
      by (unfold d, CHUNK_SIZE; rewrite length_firstn; lia).
    unfold i2s_write_all in H. destruct (write_fault env dr).
    { rewrite bind_fail with (e := Error I2sError)
        (s' := {| cursor := c + List.length d; trace := t ++ [SdRead d] |}) in H
        by reflexivity.
      discriminate. }
    rewrite bind_ok with (a := tt)
      (s' := {| cursor := c + List.length d; trace := (t ++ [SdRead d]) ++ [I2sWrite d] |})
      in H by reflexivity.
    destruct (IH _ _ H) as (ds & Htr & Hpre & Hge & Hlast & Hsz).
    exists (d :: ds). simpl in Htr |- *.
    unfold total in *; simpl.
    repeat split.
    + rewrite Htr, <- !app_assoc. reflexivity.
    + intros [|i] Hi; simpl; [lia|].
      specialize (Hpre i ltac:(simpl in Hi; lia)). simpl in Hpre. lia.
    + lia.
    + right. destruct Hlast as [->|Hlast]; simpl in *; lia.
    + constructor; assumption.
Qed.

Open Scope nat_scope.

Lemma div_sub_1024 (r a : nat) :
  (1024 <= r)%nat -> ((r - 1024 + a) / 1024 + 1 = (r + a) / 1024)%nat.
Proof.
  intros. replace (r + a)%nat with ((r - 1024 + a) + 1 * 1024)%nat by lia.
  rewrite Nat.div_add by lia. lia.
Qed.

Lemma mod_sub_1024 (r : nat) : (1024 <= r)%nat -> ((r - 1024) mod 1024 = r mod 1024)%nat.
Proof.
  intros. replace r with ((r - 1024) + 1 * 1024)%nat at 2 by lia.
  rewrite Nat.Div0.mod_add. reflexivity.
Qed.

Lemma ceil_pos (r : nat) : (1 <= r)%nat -> (1 <= (r + 1023) / 1024)%nat.
Proof.
  intros. change 1%nat with (1024 / 1024)%nat at 1.
  apply Nat.Div0.div_le_mono. lia.
Qed.

Lemma chunk_sizes_0 : chunk_sizes 0 = [].
Proof. reflexivity. Qed.

Lemma chunk_sizes_small (r : nat) : (0 < r < 1024)%nat -> chunk_sizes r = [r].
Proof.
  intros Hr. unfold chunk_sizes.
  rewrite Nat.div_small, Nat.mod_small by lia.
  destruct (Nat.eqb_spec r 0); [lia|reflexivity].
Qed.

Lemma chunk_sizes_step (r : nat) :
  (1024 <= r)%nat -> chunk_sizes r = 1024%nat :: chunk_sizes (r - 1024).
Proof.
  intros Hr. unfold chunk_sizes.
  pose proof (div_sub_1024 r 0 Hr) as D. rewrite !Nat.add_0_r in D.
  rewrite <- D, <- (mod_sub_1024 r Hr), Nat.add_1_r. reflexivity.
Qed.

(** The spec's count, sum and last size of [chunk_sizes]. *)
Lemma chunk_sizes_facts (r : nat) :
  List.length (chunk_sizes r) = ((r + 1023) / 1024)%nat
  /\ list_sum (chunk_sizes r) = r
  /\ ((0 < r)%nat -> last (chunk_sizes r) 0%nat =
        if Nat.eqb (r mod 1024) 0 then 1024%nat else (r mod 1024)%nat).
Proof.
  induction r as [r IH] using (well_founded_induction lt_wf).
  destruct (Nat.lt_ge_cases r 1024) as [Hsmall|Hbig].
  - destruct (Nat.eq_dec r 0) as [->|Hnz].
    + rewrite chunk_sizes_0. repeat split; simpl; intros; lia.
    + rewrite (chunk_sizes_small r) by lia.
      rewrite Nat.mod_small by lia.
      destruct (Nat.eqb_spec r 0); [lia|].
      split; [|split].
      * change (List.length [r]) with 1.
        apply Nat.div_unique with (r := (r - 1)%nat); lia.
      * simpl. lia.
      * intros _. reflexivity.
  - rewrite (chunk_sizes_step r Hbig).
    destruct (IH (r - 1024)%nat ltac:(lia)) as (Hlen & Hsum & Hlast).
    repeat split.
    + cbn [List.length]. rewrite Hlen, <- (div_sub_1024 r 1023 Hbig). lia.
    + change (list_sum (1024 :: chunk_sizes (r - 1024)))
        with (1024 + list_sum (chunk_sizes (r - 1024))).
      rewrite Hsum. lia.
    + intros _. destruct (Nat.eq_dec r 1024) as [->|Hne].
      * reflexivity.
      * assert (Hne' : chunk_sizes (r - 1024) <> []).
        { intros E. rewrite E in Hlen. change (List.length (@nil nat)) with 0 in Hlen.
          pose proof (ceil_pos (r - 1024) ltac:(lia)). lia. }
        destruct (chunk_sizes (r - 1024)) as [|x l] eqn:E; [congruence|].
        change (last (1024%nat :: x :: l) 0%nat) with (last (x :: l) 0%nat).
        rewrite Hlast by lia. rewrite mod_sub_1024 by lia. reflexivity.
Qed.

(** When the file holds exactly the [size - data_read] bytes left after
    the cursor, the loop writes them in chunks of [chunk_sizes] and exits
    at the end of the file. *)
Lemma transfer_exact env size :
  no_faults env ->
  forall fuel dr c t,
  List.length (file env) = (c + (size - dr))%nat -> (dr <= size)%nat ->
  ((size - dr + 1023) / 1024 <= fuel)%nat ->
  exists ds,
    transfer env fuel size dr {| cursor := c; trace := t |} =
      (Ok tt, {| cursor := c + (size - dr); trace := t ++ rw_pairs ds |})
    /\ map (@List.length _) ds = chunk_sizes (size - dr).
Proof.
  intros [Hrf Hwf] fuel. induction fuel as [|fuel IH]; intros dr c t Hlen Hdr Hfuel.
  - assert (E : dr = size).
    { destruct (Nat.eq_dec dr size); [assumption|].
      pose proof (ceil_pos (size - dr) ltac:(lia)). lia. }
    subst dr. exists []. simpl.
    replace (Nat.ltb size size) with false by (symmetry; apply Nat.ltb_irrefl).
    rewrite Nat.sub_diag, !Nat.add_0_r, app_nil_r. split; reflexivity.
  - destruct (Nat.eq_dec dr size) as [->|Hne].
    + exists []. rewrite transfer_unfold, Nat.ltb_irrefl. unfold ret.
      rewrite Nat.sub_diag, !Nat.add_0_r, app_nil_r. split; reflexivity.
    + rewrite transfer_step; [|apply Nat.ltb_lt; lia|apply Hrf|apply Hwf].
      set (d := firstn CHUNK_SIZE (skipn c (file env))).
      assert (Hd : List.length d = Nat.min 1024 (size - dr)).
      { unfold d, CHUNK_SIZE. rewrite length_firstn, length_skipn. lia. }
      destruct (Nat.le_gt_cases 1024 (size - dr)) as [Hbig|Hsmall].
      * rewrite Hd, Nat.min_l in * by lia.
        destruct (IH (dr + 1024)%nat (c + 1024)%nat (t ++ [SdRead d; I2sWrite d]))
          as (ds & Hrun & Hmap); [lia|lia| |].
        { pose proof (div_sub_1024 (size - dr) 1023 Hbig).
          replace (size - (dr + 1024))%nat with (size - dr - 1024)%nat by lia. lia. }
        exists (d :: ds). rewrite Hrun. split.
        -- replace (c + 1024 + (size - (dr + 1024)))%nat with (c + (size - dr))%nat by lia.
           rewrite <- app_assoc. reflexivity.
        -- simpl. rewrite Hmap, Hd, (chunk_sizes_step (size - dr)) by lia.
           f_equal. f_equal. lia.
      * rewrite Nat.min_r in Hd by lia. rewrite Hd.
        destruct (IH (dr + (size - dr))%nat (c + (size - dr))%nat
                    (t ++ [SdRead d; I2sWrite d]))
          as (ds & Hrun & Hmap); [lia|lia| |].
        { replace (size - (dr + (size - dr)))%nat with 0%nat by lia.
          simpl. lia. }
        replace (size - (dr + (size - dr)))%nat with 0%nat in * by lia.
        rewrite chunk_sizes_0 in Hmap.
        destruct ds; [|discriminate].
        exists [d]. rewrite Hrun. split.
        -- rewrite !Nat.add_0_r. simpl. rewrite app_nil_r. reflexivity.
        -- simpl. rewrite Hd, chunk_sizes_small by lia. reflexivity.
Qed.

(** Fewer bytes left in the file than the loop still expects: without a
    fault the loop never exits. *)
Lemma transfer_short env size :
  no_faults env ->
  forall fuel dr c t,
  c <= List.length (file env) -> List.length (file env) - c < size - dr ->
  fst (transfer env fuel size dr {| cursor := c; trace := t |}) = Fail OutOfFuel.
Proof.
  intros [Hrf Hwf] fuel. induction fuel as [|fuel IH]; intros dr c t Hc Hshort.
  - simpl. replace (Nat.ltb dr size) with true by (symmetry; apply Nat.ltb_lt; lia).
    reflexivity.
  - rewrite transfer_step; [|apply Nat.ltb_lt; lia|apply Hrf|apply Hwf].
    apply IH; unfold CHUNK_SIZE; rewrite length_firstn, length_skipn; lia.
Qed.

(** At the end of the file every iteration reads nothing and writes an
    empty slice, for ever. *)
Lemma transfer_exhausted env size :
  no_faults env ->
  forall fuel dr t, dr < size ->
  transfer env fuel size dr {| cursor := List.length (file env); trace := t |} =
  (Fail OutOfFuel,
   {| cursor := List.length (file env);
      trace := t ++ List.concat (List.repeat [SdRead []; I2sWrite []] fuel) |}).
Proof.
  intros [Hrf Hwf] fuel. induction fuel as [|fuel IH]; intros dr t Hdr.
  - simpl. replace (Nat.ltb dr size) with true by (symmetry; apply Nat.ltb_lt; lia).
    rewrite app_nil_r. reflexivity.
  - rewrite transfer_step; [|apply Nat.ltb_lt; lia|apply Hrf|apply Hwf].
    rewrite skipn_all. cbn [firstn List.length]. rewrite !Nat.add_0_r.
    rewrite IH by lia. rewrite <- app_assoc. reflexivity.
Qed.

(* ------------------------------------------------------------------------- *)
(** ** Which calls a computation can make *)

Create HintDb only.

Section OnlyEvents.
Variable P : Event -> Prop.
Hypothesis P_read : forall d, P (SdRead d).
Hypothesis P_seek : forall off, P (SdSeek off).
Hypothesis P_write : forall d, P (I2sWrite d).
Hypothesis P_enable : P TxEnable.

Lemma ret_only {A} (a : A) : only_events P (ret a).
Proof. intros s. exists []. rewrite app_nil_r. split; [reflexivity|constructor]. Qed.

Lemma stop_only {A} (e : Stop) : @only_events A P (stop e).
Proof. intros s. exists []. rewrite app_nil_r. split; [reflexivity|constructor]. Qed.

Lemma lift_only {A} (r : Result A) : only_events P (lift r).
Proof. intros s. exists []. rewrite app_nil_r. split; [reflexivity|constructor]. Qed.

Lemma emit_only (e : Event) : P e -> only_events P (emit e).
Proof. intros He s. exists [e]. split; [reflexivity|auto]. Qed.

Lemma set_cursor_only (n : nat) : only_events P (set_cursor n).
Proof. intros s. exists []. rewrite app_nil_r. split; [reflexivity|constructor]. Qed.

Lemma get_cursor_only : only_events P get_cursor.
Proof. intros s. exists []. rewrite app_nil_r. split; [reflexivity|constructor]. Qed.

Lemma bind_only {A B} (m : M A) (k : A -> M B) :
  only_events P m -> (forall a, only_events P (k a)) -> only_events P (bind m k).
Proof.
  intros Hm Hk s. unfold bind. destruct (Hm s) as (tr1 & E1 & F1).
  destruct (m s) as [[a|e] s1]; simpl in *.
  - destruct (Hk a s1) as (tr2 & E2 & F2). exists (tr1 ++ tr2).
    rewrite E2, E1, app_assoc. split; [reflexivity|]. apply Forall_app; auto.
  - exists tr1. auto.
Qed.

Lemma if_only {A} (b : bool) (m1 m2 : M A) :
  only_events P m1 -> only_events P m2 -> only_events P (if b then m1 else m2).
Proof. destruct b; auto. Qed.

Lemma expect_only {A} (msg : string) (m : M A) :
  only_events P m -> only_events P (expect msg m).
Proof.
  intros Hm s. destruct (Hm s) as (tr & E & F). exists tr. unfold expect.
  destruct (m s) as [[a|[| |]] s']; simpl in *; auto.
Qed.

#[local] Hint Resolve ret_only stop_only lift_only emit_only set_cursor_only
  get_cursor_only bind_only if_only expect_only
  P_read P_seek P_write P_enable : only.

Lemma sd_read_only env len : only_events P (sd_read env len).
Proof.
  unfold sd_read. apply bind_only; [apply get_cursor_only|intros c].
  apply if_only; [apply stop_only|]. cbv zeta.
  apply bind_only; [apply set_cursor_only|intros _].
  apply bind_only; [apply emit_only, P_read|intros _]. apply ret_only.
Qed.

Lemma sd_seek_only env off : only_events P (sd_seek env off).
Proof. unfold sd_seek. eauto with only. Qed.

Lemma tx_enable_only env : only_events P (tx_enable env).
Proof. unfold tx_enable. eauto with only. Qed.

#[local] Hint Resolve sd_read_only sd_seek_only tx_enable_only : only.

Lemma transfer_only env fuel size dr : only_events P (transfer env fuel size dr).
Proof.
  revert dr. induction fuel as [|fuel IH]; intros dr; simpl.
  - eauto with only.
  - apply if_only; [|eauto with only].
    apply bind_only; [eauto with only|]. intros d.
    apply bind_only; [unfold i2s_write_all; eauto with only|]. auto.
Qed.

Lemma main_setup_tail_only env : only_events P (main_setup_tail env).
Proof.
  unfold main_setup_tail.
  repeat (apply bind_only; [eauto with only|intros ?]). eauto with only.
Qed.
End OnlyEvents.

(** ** Claims about header decoding *)

(** C5: for every header with the tags "RIFF", "WAVE", "fmt " and "data"
    and integer fields in range, the 44-byte buffer laid out as in the
    spec's table (little-endian integers) decodes to exactly the encoded
    fields. *)
Theorem header_roundtrip (hd : WavHeader)
  (Hriff : riff_id hd = tag "RIFF") (Hwave : file_type hd = tag "WAVE")
  (Hfmt : chunk_format hd = tag "fmt ") (Hdata : data_section_id hd = tag "data")
  (Hrange : fields_in_range hd = true) :
  List.length (layout_header hd) = 44 /\ decode_header (layout_header hd) = Ok hd.
Proof.
  split.
  - unfold layout_header, le_u32_bytes, le_u16_bytes.
    rewrite Hriff, Hwave, Hfmt, Hdata. reflexivity.
  - apply decode_layout_header; auto.
    + rewrite Hriff. reflexivity.
    + rewrite Hwave. reflexivity.
    + rewrite Hfmt. reflexivity.
    + rewrite Hdata. reflexivity.
Qed.

Lemma header_roundtrip_witness :
  List.length (layout_header header_2500) = 44
  /\ decode_header (layout_header header_2500) = Ok header_2500.
Proof.
  apply header_roundtrip; vm_compute; reflexivity.
Defined.

(** C8: on a 44-byte header, decoding panics (the [unwrap] of
    [from_utf8]) as soon as one of the four tag regions is not valid UTF-8;
    otherwise it succeeds, and every integer field is the little-endian
    value of its bytes, with no check of its value. *)
Theorem tag_utf8_panics (h : list Byte.byte) (Hlen : List.length h = 44) :
  ((utf8_valid (slice h 0 4) = false \/ utf8_valid (slice h 8 12) = false
    \/ utf8_valid (slice h 12 16) = false \/ utf8_valid (slice h 36 40) = false) ->
   exists msg, decode_header h = Fail (Panic msg))
  /\ (tags_valid h = true ->
     exists hd, decode_header h = Ok hd
       /\ u32_from_le_bytes (slice h 4 8) = Some (file_size hd)
       /\ u32_from_le_bytes (slice h 16 20) = Some (size_of_format_section hd)
       /\ u16_from_le_bytes (slice h 20 22) = Some (format hd)
       /\ u16_from_le_bytes (slice h 22 24) = Some (num_of_channels hd)
       /\ u32_from_le_bytes (slice h 24 28) = Some (sampling_rate hd)
       /\ u32_from_le_bytes (slice h 28 32) = Some (byte_rate hd)
       /\ u16_from_le_bytes (slice h 32 34) = Some (block_align hd)
       /\ u16_from_le_bytes (slice h 34 36) = Some (bits_per_sample hd)
       /\ u32_from_le_bytes (slice h 40 44) = Some (size_of_data hd)).
Proof.
  destruct (decode_header_cases h Hlen) as [Hbad Hgood]. split.
  - intros Hinv. apply Hbad. unfold tags_valid.
    destruct Hinv as [E|[E|[E|E]]]; rewrite E;
      rewrite ?andb_false_r; reflexivity.
  - intros Hv. destruct (Hgood Hv) as (hd & Hd & _ & H1 & _ & _ & H2 & H3 & H4
      & H5 & H6 & H7 & H8 & _ & H9).
    exists hd. repeat split; assumption.
Qed.

Lemma tag_utf8_panics_witness :
  exists msg, decode_header header_bad_utf8 = Fail (Panic msg).
Proof.
  apply (tag_utf8_panics header_bad_utf8 ltac:(vm_compute; reflexivity)).
  left. vm_compute. reflexivity.
Defined.

(** C2 (as the code does it): [main] never compares the tags with
    "RIFF", "WAVE", "fmt " and "data" and has no tag error. On a file of at
    least 44 bytes whose header is read: if a tag region is not valid
    UTF-8, [main] panics right after the header read, with nothing played;
    otherwise the header decodes whatever the tag bytes are, its tag
    fields holding the raw bytes, and, once the timing read and
    [tx_enable] succeed, [main] runs the loop over the header's
    [data_size_bytes]. *)
Theorem tags_not_checked (env : Env) (fuel : nat)
  (Hlen : 44 <= List.length (file env)) (H0 : read_fault env 0 = false)
  (Hopen : sd_open_fails env = false) :
  (tags_valid (firstn 44 (file env)) = false ->
   exists msg, main_run env fuel =
     (Fail (Panic msg),
      {| cursor := 44;
         trace := [I2sConfigure SAMPLE_RATE_HZ 16 Mono; SdRead (firstn 44 (file env))] |}))
  /\ (tags_valid (firstn 44 (file env)) = true ->
      exists hd, decode_header (firstn 44 (file env)) = Ok hd
        /\ riff_id hd = slice (firstn 44 (file env)) 0 4
        /\ file_type hd = slice (firstn 44 (file env)) 8 12
        /\ chunk_format hd = slice (firstn 44 (file env)) 12 16
        /\ data_section_id hd = slice (firstn 44 (file env)) 36 40
        /\ (read_fault env 44 = false -> enable_fails env = false ->
            main_run env fuel =
            bind (transfer env fuel (Z.to_nat (size_of_data hd)) 0)
                 (fun _ => tx_disable env)
                 {| cursor := 44; trace := main_prefix env |})).
Proof.
  assert (Hl44 : List.length (firstn 44 (file env)) = 44)
    by (rewrite length_firstn; lia).
  destruct (decode_header_cases (firstn 44 (file env)) Hl44) as [Hbad Hgood].
  split.
  - intros Hv. destruct (Hbad Hv) as [msg Hd]. exists msg.
    assert (Hs : main_setup env {| cursor := 0; trace := [] |} =
      (Fail (Panic msg),
       {| cursor := 44;
          trace := [I2sConfigure SAMPLE_RATE_HZ 16 Mono; SdRead (firstn 44 (file env))] |})).
    { unfold main_setup. erewrite bind_ok by reflexivity.
      unfold main_setup_tail.
      erewrite bind_ok by (apply sd_open_ok, Hopen).
      erewrite bind_ok by (apply expect_ok, sd_read_ok, H0).
      unfold BYTES_IN_HEADER. cbn [cursor trace skipn Nat.add app].
      rewrite Hl44, Nat.sub_diag, app_nil_r, Hd.
      erewrite bind_fail by reflexivity. reflexivity. }
    unfold main_run, main_body. rewrite (bind_fail _ _ _ _ _ Hs). reflexivity.
  - intros Hv. destruct (Hgood Hv) as (hd & Hd & Hr & _ & Hf & Hc & _ & _ & _ & _ & _ & _
      & _ & Hds & _).
    exists hd. split; [exact Hd|]. split; [exact Hr|]. split; [exact Hf|].
    split; [exact Hc|]. split; [exact Hds|].
    intros H44 Hen.
    destruct (main_run_prefix env fuel) as (hd' & Hd' & E).
    { repeat split; assumption. }
    rewrite Hd in Hd'. injection Hd' as <-. exact E.
Qed.

Lemma tags_not_checked_witness :
  (tags_valid (firstn 44 (file env_riffx)) = false ->
   exists msg, main_run env_riffx 10 =
     (Fail (Panic msg),
      {| cursor := 44;
         trace := [I2sConfigure SAMPLE_RATE_HZ 16 Mono; SdRead (firstn 44 (file env_riffx))] |}))
  /\ (tags_valid (firstn 44 (file env_riffx)) = true ->
      exists hd, decode_header (firstn 44 (file env_riffx)) = Ok hd
        /\ riff_id hd = slice (firstn 44 (file env_riffx)) 0 4
        /\ file_type hd = slice (firstn 44 (file env_riffx)) 8 12
        /\ chunk_format hd = slice (firstn 44 (file env_riffx)) 12 16
        /\ data_section_id hd = slice (firstn 44 (file env_riffx)) 36 40
        /\ (read_fault env_riffx 44 = false -> enable_fails env_riffx = false ->
            main_run env_riffx 10 =
            bind (transfer env_riffx 10 (Z.to_nat (size_of_data hd)) 0)
                 (fun _ => tx_disable env_riffx)
                 {| cursor := 44; trace := main_prefix env_riffx |})).
Proof.
  apply tags_not_checked; vm_compute; [lia|reflexivity|reflexivity].
Defined.

(** The same on a header whose first byte, [0xFF], is not UTF-8: [main]
    panics after the header read. *)
Example bad_utf8_panics_in_main :
  exists msg, main_run (clean_env (header_bad_utf8 ++ List.repeat Byte.x01 100)) 10 =
    (Fail (Panic msg),
     {| cursor := 44;
        trace := [I2sConfigure SAMPLE_RATE_HZ 16 Mono; SdRead header_bad_utf8] |}).
Proof. eexists. vm_compute. reflexivity. Qed.

(** C2 fails: a header whose [riff_id] is "RIFX" is not rejected; [main]
    plays its data and finishes normally. *)
Lemma riffx_header_plays :
  fst (main_run env_riffx 10) = Ok tt
  /\ map (@List.length _) (writes (trace (snd (main_run env_riffx 10)))) = [1024; 1024].
Proof. vm_compute. split; reflexivity. Qed.

(* ------------------------------------------------------------------------- *)
(** ** Claims about the playback *)

Lemma writes_main_prefix env : writes (main_prefix env) = [].
Proof. reflexivity. Qed.

Lemma main_run_setup_first env fuel :
  main_run env fuel =
  bind (main_setup_tail env)
    (fun h => transfer env fuel (Z.to_nat (size_of_data h)) 0 ;; tx_disable env)
    {| cursor := 0; trace := [I2sConfigure SAMPLE_RATE_HZ 16 Mono] |}.
Proof. reflexivity. Qed.

(** C4 (as the code does it): the I2S driver is configured exactly once,
    by the first call of [main], with the fixed 44100 Hz, 16 bits and mono
    of [SAMPLE_RATE_HZ], [Bits16] and [SlotMode::Mono], whatever the file
    holds; every later call ([tx_enable] among them) comes after it. *)
Theorem config_fixed_first (env : Env) (fuel : nat) :
  exists rest, trace (snd (main_run env fuel)) = I2sConfigure SAMPLE_RATE_HZ 16 Mono :: rest
    /\ (forall r b m, ~ In (I2sConfigure r b m) rest).
Proof.
  set (P := fun e => forall r b m, e <> I2sConfigure r b m).
  assert (Hbody : only_events P
    (bind (main_setup_tail env)
       (fun h => transfer env fuel (Z.to_nat (size_of_data h)) 0 ;; tx_disable env))).
  { apply bind_only; [apply main_setup_tail_only; unfold P; congruence|intros h].
    apply bind_only; [apply transfer_only; unfold P; congruence|intros _].
    unfold tx_disable. apply if_only; [apply stop_only|apply emit_only].
    unfold P; congruence. }
  destruct (Hbody {| cursor := 0; trace := [I2sConfigure SAMPLE_RATE_HZ 16 Mono] |})
    as (tr & Etr & Ftr).
  exists tr. rewrite main_run_setup_first, Etr. split; [reflexivity|].
  intros r b m Hin. rewrite Forall_forall in Ftr.
  exact (Ftr _ Hin r b m eq_refl).
Qed.

(** C4 fails: the header of [env_8000_stereo] says 8000 Hz and two
    channels, but the driver is configured for 44100 Hz mono. *)
Lemma config_ignores_header :
  match decode_header (firstn 44 (file env_8000_stereo)) with
  | Ok h => sampling_rate h = 8000%Z /\ num_of_channels h = 2%Z
  | Fail _ => False
  end
  /\ hd_error (trace (snd (main_run env_8000_stereo 10)))
     = Some (I2sConfigure 44100 16 Mono).
Proof. vm_compute. repeat split. Qed.

(** C3 (as the code does it): there is no feasibility check. Whenever the
    header read, the seek, the timing read and [tx_enable] go through and
    the tags are UTF-8, [main] calls [tx_enable] after the fixed driver
    configuration, whatever sample rate, bit depth and channel count the
    header holds. *)
Theorem no_feasibility_check (env : Env) (fuel : nat) (Hloop : reaches_loop env) :
  exists rest, trace (snd (main_run env fuel)) =
    [I2sConfigure SAMPLE_RATE_HZ 16 Mono; SdRead (firstn 44 (file env)); SdSeek 44;
     SdRead (firstn 1024 (skipn 44 (file env))); SdSeek 44; TxEnable] ++ rest.
Proof.
  destruct (main_run_prefix env fuel Hloop) as (h & _ & Hrun).
  rewrite Hrun.
  assert (Hf : framed (bind (transfer env fuel (Z.to_nat (size_of_data h)) 0)
                            (fun _ => tx_disable env))).
  { apply bind_framed; [apply transfer_framed|intros _; apply tx_disable_framed]. }
  rewrite Hf.
  destruct (bind _ _ {| cursor := 44; trace := [] |}) as [r s'].
  exists (trace s'). reflexivity.
Qed.

Lemma no_feasibility_check_witness :
  exists rest, trace (snd (main_run env_22050 3)) =
    [I2sConfigure SAMPLE_RATE_HZ 16 Mono; SdRead (firstn 44 (file env_22050)); SdSeek 44;
     SdRead (firstn 1024 (skipn 44 (file env_22050))); SdSeek 44; TxEnable] ++ rest.
Proof.
  apply no_feasibility_check.
  unfold reaches_loop. vm_compute. repeat split; lia.
Defined.

(** C3 fails: a 22050 Hz file is configured, enabled and played to the
    end with no error. *)
Lemma rate_22050_played :
  fst (main_run env_22050 10) = Ok tt
  /\ firstn 6 (trace (snd (main_run env_22050 10))) = main_prefix env_22050
  /\ map (@List.length _) (writes (trace (snd (main_run env_22050 10)))) = [1024; 1024; 452].
Proof. vm_compute. repeat split. Qed.

(** C1 (as the code does it): each read asks for the whole 1024-byte
    buffer and gets [min(1024, bytes left in the file)]. When the file ends
    exactly at the end of the data section and nothing fails, [main] makes
    [ceil(S / 1024)] writes of [chunk_sizes S] bytes: all 1024 but the last,
    which is [S mod 1024] (or 1024), summing to exactly [S]. *)
Theorem exact_file_chunked_writes (env : Env) (fuel : nat) (h : WavHeader)
  (Hloop : reaches_loop env) (Hnf : no_faults env)
  (Hdis : disable_fails env = false)
  (Hdec : decode_header (firstn 44 (file env)) = Ok h)
  (Hlen : List.length (file env) = 44 + Z.to_nat (size_of_data h))
  (Hfuel : (Z.to_nat (size_of_data h) + 1023) / 1024 <= fuel) :
  fst (main_run env fuel) = Ok tt
  /\ map (@List.length _) (writes (trace (snd (main_run env fuel))))
     = chunk_sizes (Z.to_nat (size_of_data h))
  /\ List.length (chunk_sizes (Z.to_nat (size_of_data h)))
     = (Z.to_nat (size_of_data h) + 1023) / 1024
  /\ list_sum (chunk_sizes (Z.to_nat (size_of_data h))) = Z.to_nat (size_of_data h)
  /\ (0 < Z.to_nat (size_of_data h) ->
      last (chunk_sizes (Z.to_nat (size_of_data h))) 0
      = if Nat.eqb (Z.to_nat (size_of_data h) mod 1024) 0 then 1024
        else Z.to_nat (size_of_data h) mod 1024).
Proof.
  destruct (main_run_prefix env fuel Hloop) as (h' & Hdec' & Hrun).
  rewrite Hdec in Hdec'. injection Hdec' as <-.
  set (S := Z.to_nat (size_of_data h)) in *.
  destruct (transfer_exact env S Hnf fuel 0 44 (main_prefix env))
    as (ds & Ht & Hm); [rewrite Nat.sub_0_r; exact Hlen|lia|rewrite Nat.sub_0_r; exact Hfuel|].
  rewrite Nat.sub_0_r in Ht, Hm.
  destruct (chunk_sizes_facts S) as (F1 & F2 & F3).
  rewrite Hrun. erewrite bind_ok by exact Ht.
  unfold tx_disable. rewrite Hdis. cbn [emit fst snd trace].
  rewrite !writes_app, writes_main_prefix, writes_rw_pairs. cbn [writes].
  rewrite app_nil_r. auto.
Qed.

Lemma exact_file_chunked_writes_witness :
  fst (main_run env_2500 3) = Ok tt
  /\ map (@List.length _) (writes (trace (snd (main_run env_2500 3))))
     = chunk_sizes (Z.to_nat (size_of_data header_2500))
  /\ List.length (chunk_sizes (Z.to_nat (size_of_data header_2500)))
     = (Z.to_nat (size_of_data header_2500) + 1023) / 1024
  /\ list_sum (chunk_sizes (Z.to_nat (size_of_data header_2500)))
     = Z.to_nat (size_of_data header_2500)
  /\ (0 < Z.to_nat (size_of_data header_2500) ->
      last (chunk_sizes (Z.to_nat (size_of_data header_2500))) 0
      = if Nat.eqb (Z.to_nat (size_of_data header_2500) mod 1024) 0 then 1024
        else Z.to_nat (size_of_data header_2500) mod 1024).
Proof.
  apply exact_file_chunked_writes.
  - unfold reaches_loop. vm_compute. repeat split; lia.
  - split; intros; reflexivity.
  - reflexivity.
  - vm_compute. reflexivity.
  - vm_compute. reflexivity.
  - vm_compute. lia.
Defined.

(** The spec's scenario on a file that ends at its data: writes of 1024,
    1024 and 452 bytes. *)
Example scenario_2500 :
  map (@List.length _) (writes (trace (snd (main_run env_2500 3)))) = [1024; 1024; 452].
Proof. vm_compute. reflexivity. Qed.

(** C1 fails: the reads are not bounded by the bytes still expected. With
    3072 bytes after the header and [data_size_bytes = 2500], the third
    read takes 1024 bytes past the data section and the loop consumes and
    writes 3072 bytes, not 2500. *)
Lemma trailing_bytes_over_read :
  fst (main_run env_2500_trailing 10) = Ok tt
  /\ map (@List.length _) (writes (trace (snd (main_run env_2500_trailing 10))))
     = [1024; 1024; 1024].
Proof. vm_compute. split; reflexivity. Qed.

(** C9: whatever the card and the I2S driver do, when the loop exits
    normally each of its iterations read some bytes [d] and wrote exactly
    [d]; every iteration started with [data_read < size]; and the total
    read (= written) is at least [size] and less than [size + 1024]. *)
Theorem loop_invariant (env : Env) (fuel size : nat) (s s' : St)
  (Hexit : transfer env fuel size 0 s = (Ok tt, s')) :
  exists ds, trace s' = trace s ++ rw_pairs ds
    /\ writes (rw_pairs ds) = ds
    /\ (forall i, i < List.length ds -> total (firstn i ds) < size)
    /\ size <= total ds /\ total ds < size + 1024
    /\ Forall (fun d => List.length d <= 1024) ds.
Proof.
  destruct (transfer_ok_inv env fuel size 0 s s' Hexit)
    as (ds & Htr & Hpre & Hge & Hlast & Hsz).
  exists ds. rewrite writes_rw_pairs.
  repeat split; auto.
  destruct Hlast as [->|Hlast]; [unfold total in *; simpl in *; lia|lia].
Qed.

Lemma loop_invariant_witness :
  exists ds,
    trace (snd (transfer env_2500_trailing 5 2500 0 {| cursor := 44; trace := [] |}))
      = [] ++ rw_pairs ds
    /\ writes (rw_pairs ds) = ds
    /\ (forall i, i < List.length ds -> total (firstn i ds) < 2500)
    /\ 2500 <= total ds /\ total ds < 2500 + 1024
    /\ Forall (fun d => List.length d <= 1024) ds.
Proof.
  apply (loop_invariant env_2500_trailing 5 2500 {| cursor := 44; trace := [] |}).
  vm_compute. reflexivity.
Defined.

(** C6 (as the code does it): there is no end-of-file check. If the file
    ends before [size_of_data] data bytes and nothing fails, [main] never
    finishes and reports no error; once the file is exhausted every
    iteration reads 0 bytes and writes an empty slice. *)
Theorem short_file_never_finishes (env : Env) (h : WavHeader)
  (Hloop : reaches_loop env) (Hnf : no_faults env)
  (Hdec : decode_header (firstn 44 (file env)) = Ok h)
  (Hshort : List.length (file env) < 44 + Z.to_nat (size_of_data h)) :
  (forall fuel, fst (main_run env fuel) = Fail OutOfFuel)
  /\ (forall fuel dr t, dr < Z.to_nat (size_of_data h) ->
      transfer env fuel (Z.to_nat (size_of_data h)) dr
        {| cursor := List.length (file env); trace := t |}
      = (Fail OutOfFuel,
         {| cursor := List.length (file env);
            trace := t ++ List.concat (List.repeat [SdRead []; I2sWrite []] fuel) |})).
Proof.
  split.
  - intros fuel.
    destruct (main_run_prefix env fuel Hloop) as (h' & Hdec' & Hrun).
    rewrite Hdec in Hdec'. injection Hdec' as <-.
    rewrite Hrun. unfold bind.
    destruct Hloop as (H44 & _).
    assert (Hs : fst (transfer env fuel (Z.to_nat (size_of_data h)) 0
                        {| cursor := 44; trace := main_prefix env |}) = Fail OutOfFuel)
      by (apply transfer_short; [exact Hnf|lia|lia]).
    destruct (transfer env fuel _ 0 _) as [r s'].
    simpl in Hs. subst r. reflexivity.
  - intros fuel dr t Hdr. apply transfer_exhausted; assumption.
Qed.

Lemma short_file_never_finishes_witness :
  fst (main_run env_2500_truncated 20) = Fail OutOfFuel.
Proof.
  apply (short_file_never_finishes env_2500_truncated header_2500).
  - unfold reaches_loop. vm_compute. repeat split; lia.
  - split; intros; reflexivity.
  - vm_compute. reflexivity.
  - vm_compute. lia.
Defined.

(** C6 fails: with 2000 of the 2500 data bytes, no error is raised; after
    the short read of 976 bytes the loop goes on writing empty slices. *)
Lemma truncated_file_spins :
  fst (main_run env_2500_truncated 6) = Fail OutOfFuel
  /\ map (@List.length _) (writes (trace (snd (main_run env_2500_truncated 6))))
     = [1024; 976; 0; 0; 0; 0].
Proof. vm_compute. split; reflexivity. Qed.

(** C7 (as the code does it): when [main] returns an error (a failed card
    read or I2S write, passed on by [?]), it has made no [tx_disable]
    call; and a failing [tx_disable] is not swallowed: [main] then never
    ends normally. *)
Theorem error_paths_skip_disable (env : Env) (fuel : nat) :
  (forall e, fst (main_run env fuel) = Fail (Error e) ->
     ~ In TxDisable (trace (snd (main_run env fuel))))
  /\ (disable_fails env = true -> fst (main_run env fuel) <> Ok tt).
Proof.
  set (P := fun e => e <> TxDisable).
  assert (HP : forall tr, Forall P tr -> ~ In TxDisable tr).
  { intros tr F Hin. rewrite Forall_forall in F. exact (F _ Hin eq_refl). }
  assert (Htail : only_events P (main_setup_tail env))
    by (apply main_setup_tail_only; intros; unfold P; congruence).
  set (s0 := {| cursor := 0; trace := [I2sConfigure SAMPLE_RATE_HZ 16 Mono] |}).
  rewrite main_run_setup_first. fold s0.
  destruct (Htail s0) as (tr1 & E1 & F1).
  destruct (main_setup_tail env s0) as [[h|e1] s1] eqn:Es; simpl in E1.
  - rewrite (bind_ok _ _ _ _ _ Es).
    assert (Hloop : only_events P (transfer env fuel (Z.to_nat (size_of_data h)) 0))
      by (apply transfer_only; intros; unfold P; congruence).
    destruct (Hloop s1) as (tr2 & E2 & F2).
    destruct (transfer env fuel _ 0 s1) as [[[]|e2] s2] eqn:Et; simpl in E2.
    + rewrite (bind_ok _ _ _ _ _ Et). unfold tx_disable.
      destruct (disable_fails env); simpl.
      * split; [intros e E; discriminate|intros _ E; discriminate].
      * split; [intros e E; discriminate|discriminate].
    + rewrite (bind_fail _ _ _ _ _ Et). simpl.
      split; [|intros _ E; discriminate].
      intros e _. rewrite E2, E1. simpl.
      intros [H|H]; [discriminate|].
      apply in_app_or in H as [H|H]; [exact (HP tr1 F1 H)|exact (HP tr2 F2 H)].
  - rewrite (bind_fail _ _ _ _ _ Es). simpl.
    split; [|intros _ E; discriminate].
    intros e _. rewrite E1. simpl.
    intros [H|H]; [discriminate|]. exact (HP tr1 F1 H).
Qed.

Lemma error_paths_skip_disable_witness :
  ~ In TxDisable (trace (snd (main_run env_read_error 10))).
Proof.
  apply (proj1 (error_paths_skip_disable env_read_error 10) SdCardError).
  vm_compute. reflexivity.
Defined.

(** C7 fails: the card fails mid-stream, after [tx_enable], and [main]
    returns the error without any [tx_disable] call. *)
Lemma read_error_leaves_enabled :
  fst (main_run env_read_error 10) = Fail (Error SdCardError)
  /\ In TxEnable (trace (snd (main_run env_read_error 10)))
  /\ ~ In TxDisable (trace (snd (main_run env_read_error 10))).
Proof.
  split; [vm_compute; reflexivity|]. split.
  - vm_compute. right; right; right; right; right; left. reflexivity.
  - vm_compute. intuition discriminate.
Qed.

(** C10: the bytes streamed to I2S are those of the loop started at file
    offset 44 with nothing read before: the timing read has no effect, and
    the first chunk written is the 1024 bytes at offset 44. *)
Theorem stream_starts_at_44 (env : Env) (fuel : nat) (Hloop : reaches_loop env) :
  exists h, decode_header (firstn 44 (file env)) = Ok h
    /\ writes (trace (snd (main_run env fuel)))
       = writes (trace (snd (transfer env fuel (Z.to_nat (size_of_data h)) 0
                              {| cursor := 44; trace := [] |})))
    /\ (0 < Z.to_nat (size_of_data h) -> 0 < fuel -> write_fault env 0 = false ->
        hd_error (writes (trace (snd (main_run env fuel))))
        = Some (firstn 1024 (skipn 44 (file env)))).
Proof.
  destruct (main_run_prefix env fuel Hloop) as (h & Hdec & Hrun).
  exists h. split; [exact Hdec|].
  set (S := Z.to_nat (size_of_data h)) in *.
  assert (Hw : writes (trace (snd (main_run env fuel)))
               = writes (trace (snd (transfer env fuel S 0 {| cursor := 44; trace := [] |})))).
  { rewrite Hrun. unfold bind. rewrite (transfer_framed env fuel S 0 44 (main_prefix env)).
    destruct (transfer env fuel S 0 {| cursor := 44; trace := [] |}) as [[[]|e] [c' t']];
      simpl.
    - unfold tx_disable. destruct (disable_fails env); simpl;
        rewrite ?writes_app; simpl; rewrite ?app_nil_r; reflexivity.
    - rewrite ?writes_app; simpl; reflexivity. }
  split; [exact Hw|].
  intros HS Hf Hw0. rewrite Hw.
  destruct fuel as [|fuel]; [lia|].
  destruct Hloop as (_ & _ & H44 & _).
  rewrite transfer_step; [|apply Nat.ltb_lt; exact HS|exact H44|exact Hw0].
  rewrite transfer_framed.
  destruct (transfer env fuel S _ _) as [r [c' t']]. reflexivity.
Qed.

Lemma stream_starts_at_44_witness :
  exists h, decode_header (firstn 44 (file env_2500)) = Ok h
    /\ writes (trace (snd (main_run env_2500 3)))
       = writes (trace (snd (transfer env_2500 3 (Z.to_nat (size_of_data h)) 0
                              {| cursor := 44; trace := [] |})))
    /\ (0 < Z.to_nat (size_of_data h) -> 0 < 3 -> write_fault env_2500 0 = false ->
        hd_error (writes (trace (snd (main_run env_2500 3))))
        = Some (firstn 1024 (skipn 44 (file env_2500)))).
Proof.
  apply stream_starts_at_44.
  unfold reaches_loop. vm_compute. repeat split; lia.
Defined.

(* ------------------------------------------------------------------------- *)
(** ** Further properties of [main] *)

Lemma firstn_add_skipn {A} (a b : nat) (l : list A) :
  firstn (a + b) l = firstn a l ++ firstn b (skipn a l).
Proof.
  revert l. induction a as [|a IH]; intros [|x l]; simpl; rewrite ?firstn_nil; auto.
  f_equal. apply IH.
Qed.

Lemma slice_app (h : list Byte.byte) (a b c : nat) :
  a <= b <= c -> slice h a b ++ slice h b c = slice h a c.
Proof.
  intros Habc. unfold slice.
  replace (c - a) with ((b - a) + (c - b)) by lia.
  rewrite firstn_add_skipn, skipn_skipn.
  replace (b - a + a) with b by lia. reflexivity.
Qed.

Lemma u8_bounds (b : Byte.byte) : (0 <= u8 b < 256)%Z.
Proof. unfold u8. pose proof (Byte.to_N_bounded b). lia. Qed.

Lemma byte_of_Z_u8 (b : Byte.byte) : byte_of_Z (u8 b) = b.
Proof.
  unfold byte_of_Z. rewrite Z.mod_small by apply u8_bounds.
  unfold u8. rewrite N2Z.id, Byte.of_to_N. reflexivity.
Qed.

Lemma byte_of_Z_digit (a q : Z) : (0 <= a < 256)%Z -> byte_of_Z (a + 256 * q) = byte_of_Z a.
Proof.
  intros Ha. unfold byte_of_Z.
  rewrite (Z.mul_comm 256 q), Z.mod_add by lia. reflexivity.
Qed.

(** Bytes to [u32] and back. *)
Lemma u32_bytes_roundtrip (s : list Byte.byte) (v : Z) :
  u32_from_le_bytes s = Some v -> le_u32_bytes v = s /\ (0 <= v < 2^32)%Z.
Proof.
  destruct s as [|b0 [|b1 [|b2 [|b3 [|? ?]]]]]; try discriminate.
  cbn [u32_from_le_bytes]. intros E. injection E as <-.
  pose proof (u8_bounds b0). pose proof (u8_bounds b1).
  pose proof (u8_bounds b2). pose proof (u8_bounds b3).
  unfold le_u32_bytes.
  change (2^8)%Z with 256%Z. change (2^16)%Z with 65536%Z.
  change (2^24)%Z with 16777216%Z. change (2^32)%Z with 4294967296%Z.
  change (Z.pow_pos 2 8) with 256%Z. change (Z.pow_pos 2 16) with 65536%Z.
  change (Z.pow_pos 2 24) with 16777216%Z.
  set (v := (u8 b0 + u8 b1 * 256 + u8 b2 * 65536 + u8 b3 * 16777216)%Z).
  rewrite <- (Z.div_unique v 256 (u8 b1 + 256 * (u8 b2 + 256 * u8 b3)) (u8 b0))
    by (unfold v; lia).
  rewrite <- (Z.div_unique v 65536 (u8 b2 + 256 * u8 b3) (u8 b0 + 256 * u8 b1))
    by (unfold v; lia).
  rewrite <- (Z.div_unique v 16777216 (u8 b3) (u8 b0 + 256 * (u8 b1 + 256 * u8 b2)))
    by (unfold v; lia).
  replace v with (u8 b0 + 256 * (u8 b1 + 256 * (u8 b2 + 256 * u8 b3)))%Z
    by (unfold v; lia).
  rewrite !byte_of_Z_digit, !byte_of_Z_u8 by assumption.
  split; [reflexivity|lia].
Qed.

Lemma u16_bytes_roundtrip (s : list Byte.byte) (v : Z) :
  u16_from_le_bytes s = Some v -> le_u16_bytes v = s /\ (0 <= v < 2^16)%Z.
Proof.
  destruct s as [|b0 [|b1 [|? ?]]]; try discriminate.
  cbn [u16_from_le_bytes]. intros E. injection E as <-.
  pose proof (u8_bounds b0). pose proof (u8_bounds b1).
  unfold le_u16_bytes.
  change (2^8)%Z with 256%Z. change (2^16)%Z with 65536%Z.
  change (Z.pow_pos 2 8) with 256%Z.
  rewrite <- (Z.div_unique (u8 b0 + u8 b1 * 256) 256 (u8 b1) (u8 b0)) by lia.
  replace (u8 b0 + u8 b1 * 256)%Z with (u8 b0 + 256 * u8 b1)%Z by lia.
  rewrite byte_of_Z_digit, !byte_of_Z_u8 by assumption.
  split; [reflexivity|lia].
Qed.

Lemma decode_fail_panic (h : list Byte.byte) (e : Stop) :
  decode_header h = Fail e -> exists msg, e = Panic msg.
Proof.
  unfold decode_header, rbind, unwrap, from_utf8_unwrap.
  repeat match goal with
         | |- context [if ?b then _ else _] => destruct b
         | |- context [match ?o with Some _ => _ | None => _ end] => destruct o
         end; intros E; try discriminate; injection E as <-; eauto.
Qed.

Lemma decode_ok_tags (h : list Byte.byte) (hd : WavHeader) :
  List.length h = 44 -> decode_header h = Ok hd -> tags_valid h = true.
Proof.
  intros Hlen Hd. destruct (tags_valid h) eqn:Ht; [reflexivity|].
  destruct (proj1 (decode_header_cases h Hlen) Ht) as [msg E]. congruence.
Qed.

(** X1: a 44-byte header that [decode_header] accepts is given back byte
    for byte by re-encoding the decoded fields ([layout_header]); the
    decoding loses nothing, and every integer field is in the range of
    its type. *)
Theorem header_reencode (h : list Byte.byte) (hd : WavHeader)
  (Hlen : List.length h = 44) (Hdec : decode_header h = Ok hd) :
  layout_header hd = h /\ fields_in_range hd = true.
Proof.
  pose proof (decode_ok_tags h hd Hlen Hdec) as Ht.
  destruct (proj2 (decode_header_cases h Hlen) Ht)
    as (hd' & E & Hr & H1 & Hf & Hc & H2 & H3 & H4 & H5 & H6 & H7 & H8 & Hd & H9).
  rewrite Hdec in E. injection E as <-.
  apply u32_bytes_roundtrip in H1 as [B1 R1].
  apply u32_bytes_roundtrip in H2 as [B2 R2].
  apply u16_bytes_roundtrip in H3 as [B3 R3].
  apply u16_bytes_roundtrip in H4 as [B4 R4].
  apply u32_bytes_roundtrip in H5 as [B5 R5].
  apply u32_bytes_roundtrip in H6 as [B6 R6].
  apply u16_bytes_roundtrip in H7 as [B7 R7].
  apply u16_bytes_roundtrip in H8 as [B8 R8].
  apply u32_bytes_roundtrip in H9 as [B9 R9].
  split.
  - unfold layout_header.
    rewrite Hr, B1, Hf, Hc, B2, B3, B4, B5, B6, B7, B8, Hd, B9.
    rewrite !slice_app by lia.
    unfold slice. rewrite Nat.sub_0_r, skipn_O. apply firstn_all2. lia.
  - unfold fields_in_range.
    repeat rewrite andb_true_iff.
    repeat split; first [apply Z.leb_le | apply Z.ltb_lt]; lia.
Qed.

Lemma header_reencode_witness :
  layout_header header_2500 = firstn 44 (file env_2500)
  /\ fields_in_range header_2500 = true.
Proof. apply header_reencode; vm_compute; reflexivity. Defined.

Lemma expect_fault {A} msg (m : M A) s e s' :
  m s = (Fail (Error e), s') -> expect msg m s = (Fail (Panic msg), s').
Proof. intros E. unfold expect. rewrite E. reflexivity. Qed.

Lemma sd_seek_past_end env off s :
  Nat.ltb (List.length (file env)) off = true ->
  sd_seek env off s = (Fail (Error SdCardError), s).
Proof. intros H. unfold sd_seek. rewrite H. reflexivity. Qed.

(** [main] up to [tx_enable] either reaches the loop, or stops having
    made a strict prefix of the calls of [main_prefix]: with an [Err] when
    the card or the file does not open, with a panic otherwise. *)
Lemma main_setup_cases (env : Env) :
  reaches_loop env \/
  exists e n c, n < 6 /\
    main_setup env {| cursor := 0; trace := [] |} =
      (Fail e, {| cursor := c; trace := firstn n (main_prefix env) |})
    /\ ((sd_open_fails env = true /\ e = Error SdCardError /\ n = 1 /\ c = 0)
        \/ (sd_open_fails env = false /\ exists msg, e = Panic msg)).
Proof.
  unfold main_setup. erewrite bind_ok by reflexivity.
  unfold main_setup_tail.
  destruct (sd_open_fails env) eqn:Hop.
  { right. erewrite bind_fail by (unfold sd_open; rewrite Hop; reflexivity).
    exists (Error SdCardError), 1, 0. split; [lia|]. split; [reflexivity|]. auto. }
  erewrite bind_ok by (apply sd_open_ok, Hop).
  destruct (read_fault env 0) eqn:H0.
  { right. erewrite bind_fail by (eapply expect_fault, sd_read_fault; exact H0).
    exists (Panic "read header from wav file"), 1, 0.
    split; [lia|]. split; [reflexivity|]. eauto. }
  erewrite bind_ok by (apply expect_ok, sd_read_ok, H0).
  unfold BYTES_IN_HEADER. cbn [cursor trace skipn Nat.add app].
  match goal with
  | |- context [decode_header ?x] => destruct (decode_header x) as [h|e] eqn:Hd
  end.
  2:{ right. destruct (decode_fail_panic _ _ Hd) as [msg ->].
      erewrite bind_fail by reflexivity.
      eexists (Panic msg), 2, _. split; [lia|]. split; [reflexivity|]. eauto. }
  erewrite bind_ok by reflexivity.
  destruct (Nat.ltb (List.length (file env)) 44) eqn:Hl.
  { right. erewrite bind_fail by (eapply expect_fault, sd_seek_past_end; exact Hl).
    eexists (Panic "failed to seek"), 2, _.
    split; [lia|]. split; [reflexivity|]. eauto. }
  apply Nat.ltb_ge in Hl.
  erewrite bind_ok by (apply expect_ok, sd_seek_ok; exact Hl).
  destruct (read_fault env 44) eqn:H44.
  { right. erewrite bind_fail by (eapply expect_fault, sd_read_fault; exact H44).
    eexists (Panic "read"), 3, _. split; [lia|]. split; [reflexivity|]. eauto. }
  erewrite bind_ok by (apply expect_ok, sd_read_ok, H44).
  erewrite bind_ok by (apply sd_seek_ok; exact Hl).
  destruct (enable_fails env) eqn:Hen.
  { right. erewrite bind_fail by (unfold tx_enable; rewrite Hen; reflexivity).
    eexists (Panic "tx_enable"), 5, _. split; [lia|]. split; [reflexivity|]. eauto. }
  left. assert (Hl44 : List.length (firstn 44 (file env)) = 44)
    by (rewrite length_firstn; lia).
  rewrite Hl44, Nat.sub_diag, app_nil_r in Hd.
  repeat split; auto. exact (decode_ok_tags _ _ Hl44 Hd).
Qed.

Lemma writes_prefix_firstn env n : writes (firstn n (main_prefix env)) = [].
Proof.
  destruct n as [|[|[|[|[|[|n]]]]]]; try reflexivity.
  simpl. rewrite firstn_nil. reflexivity.
Qed.

Lemma main_run_cases (env : Env) (fuel : nat) :
  (reaches_loop env /\ exists h, decode_header (firstn 44 (file env)) = Ok h /\
     main_run env fuel =
     bind (transfer env fuel (Z.to_nat (size_of_data h)) 0) (fun _ => tx_disable env)
       {| cursor := 44; trace := main_prefix env |})
  \/ (~ reaches_loop env /\ exists e n c, n < 6 /\
      main_run env fuel =
        (Fail e, {| cursor := c; trace := firstn n (main_prefix env) |})
      /\ ((sd_open_fails env = true /\ e = Error SdCardError /\ n = 1 /\ c = 0)
          \/ (sd_open_fails env = false /\ exists msg, e = Panic msg))).
Proof.
  destruct (main_setup_cases env) as [Hr|(e & n & c & Hn & E & He)].
  - left. split; [exact Hr|]. exact (main_run_prefix env fuel Hr).
  - right. split.
    + intros Hr. destruct (main_setup_ok env Hr) as (h & _ & E'). congruence.
    + exists e, n, c. split; [exact Hn|]. split; [|exact He].
      unfold main_run, main_body. rewrite (bind_fail _ _ _ _ _ E). reflexivity.
Qed.

Lemma firstn_length_firstn {A} (n : nat) (l : list A) :
  firstn (List.length (firstn n l)) l = firstn n l.
Proof.
  rewrite length_firstn. destruct (Nat.le_ge_cases n (List.length l)).
  - rewrite Nat.min_l by lia. reflexivity.
  - rewrite Nat.min_r by lia. rewrite firstn_all, firstn_all2 by lia. reflexivity.
Qed.

(** Every run of the loop, for any card and I2S behaviour: pairs of a read
    of [d] and a write of [d], the chunks [d] being consecutive bytes of the
    file from the cursor, then at most one read whose write failed. *)
Lemma transfer_cases env fuel size dr c t r s' :
  transfer env fuel size dr {| cursor := c; trace := t |} = (r, s') ->
  exists ds tail,
    trace s' = t ++ rw_pairs ds ++ tail
    /\ List.concat ds = firstn (total ds) (skipn c (file env))
    /\ ((r = Ok tt /\ tail = []) \/ (r = Fail OutOfFuel /\ tail = [])
        \/ (r = Fail (Error SdCardError) /\ tail = [])
        \/ (r = Fail (Error I2sError)
            /\ tail = [SdRead (firstn 1024 (skipn (c + total ds) (file env)))])).
Proof.
  revert dr c t r s'. induction fuel as [|fuel IH]; intros dr c t r s' H.
  - simpl in H. exists [], [].
    destruct (Nat.ltb dr size); injection H as <- <-; simpl; rewrite !app_nil_r;
      split; auto; split; auto.
  - rewrite transfer_unfold in H.
    destruct (Nat.ltb dr size).
    2:{ unfold ret in H. injection H as <- <-. exists [], [].
        simpl. rewrite !app_nil_r. auto. }
    destruct (read_fault env c) eqn:Hr.
    { rewrite (bind_fail _ _ _ _ _ (sd_read_fault env CHUNK_SIZE c t Hr)) in H.
      injection H as <- <-. exists [], []. simpl. rewrite !app_nil_r. auto 7. }
    rewrite (bind_ok _ _ _ _ _ (sd_read_ok env CHUNK_SIZE c t Hr)) in H.
    set (d := firstn CHUNK_SIZE (skipn c (file env))) in *.
    unfold i2s_write_all in H. destruct (write_fault env dr).
    { rewrite bind_fail with (e := Error I2sError)
        (s' := {| cursor := c + List.length d; trace := t ++ [SdRead d] |}) in H
        by reflexivity.
      injection H as <- <-. exists [], [SdRead d]. simpl.
      rewrite Nat.add_0_r. auto 7. }
    rewrite bind_ok with (a := tt)
      (s' := {| cursor := c + List.length d; trace := (t ++ [SdRead d]) ++ [I2sWrite d] |})
      in H by reflexivity.
    destruct (IH _ _ _ _ _ H) as (ds & tail & Htr & Hcat & Hr').
    exists (d :: ds), tail.
    assert (Hskip : skipn (List.length d) (skipn c (file env))
                    = skipn (c + List.length d) (file env))
      by (rewrite skipn_skipn, Nat.add_comm; reflexivity).
    split; [|split].
    + rewrite Htr. simpl. rewrite <- !app_assoc. reflexivity.
    + unfold total in *. simpl. rewrite Hcat, firstn_add_skipn, Hskip.
      f_equal. unfold d. symmetry. apply firstn_length_firstn.
    + unfold total in *. simpl. rewrite Nat.add_assoc. exact Hr'.
Qed.
(** Every run that reaches the loop. *)
Lemma main_run_loop_shape (env : Env) (fuel : nat) :
  reaches_loop env ->
  exists h ds tail, decode_header (firstn 44 (file env)) = Ok h
    /\ trace (snd (main_run env fuel)) = main_prefix env ++ rw_pairs ds ++ tail
    /\ List.concat ds = firstn (total ds) (skipn 44 (file env))
    /\ ((fst (main_run env fuel) = Ok tt /\ tail = [TxDisable]
         /\ Z.to_nat (size_of_data h) <= total ds
         /\ (ds = [] \/ total ds < Z.to_nat (size_of_data h) + 1024))
        \/ (fst (main_run env fuel) = Fail (Panic "tx_disable") /\ tail = [])
        \/ (fst (main_run env fuel) = Fail OutOfFuel /\ tail = [])
        \/ (fst (main_run env fuel) = Fail (Error SdCardError) /\ tail = [])
        \/ (fst (main_run env fuel) = Fail (Error I2sError)
            /\ tail = [SdRead (firstn 1024 (skipn (44 + total ds) (file env)))])).
Proof.
  intros Hr. destruct (main_run_prefix env fuel Hr) as (h & Hd & E).
  exists h. rewrite E. unfold bind. rewrite transfer_framed.
  destruct (transfer env fuel (Z.to_nat (size_of_data h)) 0
              {| cursor := 44; trace := [] |}) as [r [c' t']] eqn:Et.
  pose proof Et as Et2.
  apply transfer_cases in Et as (ds & tail & Htr & Hcat & Hcases).
  cbn [trace] in Htr. subst t'.
  destruct Hcases as [(-> & ->)|[(-> & ->)|[(-> & ->)|(-> & ->)]]].
  - apply transfer_ok_inv in Et2 as (ds' & Htr' & _ & Hge & Hlast & _).
    cbn [trace app] in Htr'. rewrite app_nil_r in Htr'.
    assert (ds' = ds) as ->
      by (rewrite <- (writes_rw_pairs ds'), <- Htr', writes_rw_pairs; reflexivity).
    unfold tx_disable. destruct (disable_fails env).
    + exists ds, []. cbn [fst snd trace cursor emit].
      split; [exact Hd|]. split; [reflexivity|]. split; [exact Hcat|]. auto 10.
    + exists ds, [TxDisable]. cbn [fst snd trace cursor emit].
      split; [exact Hd|]. split; [rewrite <- !app_assoc; reflexivity|].
      split; [exact Hcat|]. left. split; [reflexivity|]. split; [reflexivity|].
      split; [lia|]. destruct Hlast as [->|Hl]; [left; reflexivity|right; lia].
  - exists ds, []. cbn [fst snd trace cursor emit].
    split; [exact Hd|]. split; [reflexivity|]. split; [exact Hcat|]. auto 10.
  - exists ds, []. cbn [fst snd trace cursor emit].
    split; [exact Hd|]. split; [reflexivity|]. split; [exact Hcat|]. auto 10.
  - exists ds, [SdRead (firstn 1024 (skipn (44 + total ds) (file env)))].
    cbn [fst snd trace cursor emit].
    split; [exact Hd|]. split; [reflexivity|]. split; [exact Hcat|]. auto 10.
Qed.

Lemma tx_enable_in_prefix (env : Env) (l : list Event) : In TxEnable (main_prefix env ++ l).
Proof. apply in_or_app. left. unfold main_prefix. simpl. tauto. Qed.

Lemma writes_tail_nil (tail : list Event) :
  tail = [] \/ tail = [TxDisable] \/ (exists d, tail = [SdRead d]) -> writes tail = [].
Proof. intros [->|[->|[d ->]]]; reflexivity. Qed.

Lemma main_run_loop_writes (env : Env) (fuel : nat) :
  reaches_loop env ->
  exists ds, writes (trace (snd (main_run env fuel))) = ds
    /\ List.concat ds = firstn (total ds) (skipn 44 (file env)).
Proof.
  intros Hr. destruct (main_run_loop_shape env fuel Hr)
    as (h & ds & tail & _ & Htr & Hcat & Hcases).
  exists ds. split; [|exact Hcat].
  rewrite Htr, !writes_app, writes_main_prefix, writes_rw_pairs, writes_tail_nil, app_nil_r;
    [reflexivity|].
  destruct Hcases as [(_ & -> & _)|[(_ & ->)|[(_ & ->)|[(_ & ->)|(_ & ->)]]]]; eauto.
Qed.

(** X2: before [tx_enable] a run stops in one of two ways. Either the
    card, its volume or [WAV_FILE] does not open, and [main] returns an
    "SdCard error" after configuring the driver and nothing else; or it
    panics. Any other [Err] comes from the loop, after [tx_enable]. A run
    that never enables the channel wrote no audio and did not reach the
    loop. *)
Theorem setup_failures (env : Env) (fuel : nat) :
  (forall e, fst (main_run env fuel) = Fail (Error e) ->
     In TxEnable (trace (snd (main_run env fuel)))
     \/ (sd_open_fails env = true /\ e = SdCardError
         /\ trace (snd (main_run env fuel)) = [I2sConfigure SAMPLE_RATE_HZ 16 Mono]))
  /\ (~ In TxEnable (trace (snd (main_run env fuel))) ->
      writes (trace (snd (main_run env fuel))) = []
      /\ ~ reaches_loop env
      /\ ((sd_open_fails env = true
           /\ main_run env fuel =
              (Fail (Error SdCardError),
               {| cursor := 0; trace := [I2sConfigure SAMPLE_RATE_HZ 16 Mono] |}))
          \/ (sd_open_fails env = false
              /\ exists msg, fst (main_run env fuel) = Fail (Panic msg)))).
Proof.
  destruct (main_run_cases env fuel) as [[Hr _]|[Hnr (e & n & c & Hn & E & He)]].
  - destruct (main_run_loop_shape env fuel Hr) as (h & ds & tail & _ & Htr & _).
    rewrite Htr. split.
    + intros. left. apply tx_enable_in_prefix.
    + intros Hn. exfalso. apply Hn, tx_enable_in_prefix.
  - rewrite E. cbn [fst snd trace].
    destruct He as [(Hop & -> & -> & ->)|(Hop & msg & ->)].
    + split.
      * intros e' H. injection H as <-. right. auto.
      * intros _. split; [apply writes_prefix_firstn|]. split; [exact Hnr|].
        left. auto.
    + split.
      * intros e' H. discriminate.
      * intros _. split; [apply writes_prefix_firstn|]. split; [exact Hnr|].
        right. eauto.
Qed.

Lemma setup_failures_witness :
  writes (trace (snd (main_run env_no_file 10))) = []
  /\ ~ reaches_loop env_no_file
  /\ ((sd_open_fails env_no_file = true
       /\ main_run env_no_file 10 =
          (Fail (Error SdCardError),
           {| cursor := 0; trace := [I2sConfigure SAMPLE_RATE_HZ 16 Mono] |}))
      \/ (sd_open_fails env_no_file = false
          /\ exists msg, fst (main_run env_no_file 10) = Fail (Panic msg))).
Proof.
  apply (proj2 (setup_failures env_no_file 10)).
  vm_compute. intros H. repeat (destruct H as [H|H]; [discriminate|]). exact H.
Defined.

(** X3: a file shorter than 44 bytes that opens and reads never gets past the
    header: [main] configures the driver, reads the whole file and panics;
    when the zero-padded header has valid tags it panics at the seek to
    byte 44 ("failed to seek"). *)
Theorem short_header_file (env : Env) (fuel : nat)
  (Hopen : sd_open_fails env = false)
  (Hshort : List.length (file env) < 44) (H0 : read_fault env 0 = false) :
  (exists msg, main_run env fuel =
     (Fail (Panic msg),
      {| cursor := List.length (file env);
         trace := [I2sConfigure SAMPLE_RATE_HZ 16 Mono; SdRead (file env)] |}))
  /\ (tags_valid (file env ++ List.repeat Byte.x00 (44 - List.length (file env))) = true ->
      fst (main_run env fuel) = Fail (Panic "failed to seek")).
Proof.
  assert (Hf : firstn 44 (file env) = file env) by (apply firstn_all2; lia).
  assert (Hpad : List.length (file env ++ List.repeat Byte.x00 (44 - List.length (file env))) = 44)
    by (rewrite length_app, repeat_length; lia).
  assert (Hset : exists msg,
    main_setup env {| cursor := 0; trace := [] |} =
      (Fail (Panic msg),
       {| cursor := List.length (file env);
          trace := [I2sConfigure SAMPLE_RATE_HZ 16 Mono; SdRead (file env)] |})
    /\ (tags_valid (file env ++ List.repeat Byte.x00 (44 - List.length (file env))) = true ->
        msg = "failed to seek"%string)).
  { unfold main_setup. erewrite bind_ok by reflexivity. unfold main_setup_tail.
    erewrite bind_ok by (apply sd_open_ok, Hopen).
    erewrite bind_ok by (apply expect_ok, sd_read_ok, H0).
    unfold BYTES_IN_HEADER. cbn [cursor trace skipn Nat.add app].
    rewrite Hf.
    match goal with
    | |- context [decode_header ?x] => destruct (decode_header x) as [h|e] eqn:Hd
    end.
    - erewrite bind_ok by reflexivity.
      erewrite bind_fail
        by (eapply expect_fault, sd_seek_past_end; apply Nat.ltb_lt; exact Hshort).
      exists "failed to seek"%string. split; [reflexivity|auto].
    - destruct (decode_fail_panic _ _ Hd) as [msg ->].
      erewrite bind_fail by reflexivity.
      exists msg. split; [reflexivity|]. intros Ht.
      destruct (proj2 (decode_header_cases _ Hpad) Ht) as (hd & E & _). congruence. }
  destruct Hset as (msg & E & Hmsg).
  assert (Erun : main_run env fuel =
    (Fail (Panic msg),
     {| cursor := List.length (file env);
        trace := [I2sConfigure SAMPLE_RATE_HZ 16 Mono; SdRead (file env)] |}))
    by (unfold main_run, main_body; rewrite (bind_fail _ _ _ _ _ E); reflexivity).
  split; [eauto|]. intros Ht. rewrite Erun, (Hmsg Ht). reflexivity.
Qed.

Lemma short_header_file_witness :
  (exists msg, main_run env_empty 10 =
     (Fail (Panic msg),
      {| cursor := List.length (file env_empty);
         trace := [I2sConfigure SAMPLE_RATE_HZ 16 Mono; SdRead (file env_empty)] |}))
  /\ (tags_valid (file env_empty ++ List.repeat Byte.x00 (44 - List.length (file env_empty)))
        = true ->
      fst (main_run env_empty 10) = Fail (Panic "failed to seek")).
Proof. apply short_header_file; vm_compute; [reflexivity|lia|reflexivity]. Defined.

(** X4: whatever the card, the I2S driver and the header do, the bytes
    written to I2S, concatenated, are a prefix of the file after byte 44. *)
Theorem stream_is_file_prefix (env : Env) (fuel : nat) :
  exists n, List.concat (writes (trace (snd (main_run env fuel))))
            = firstn n (skipn 44 (file env)).
Proof.
  destruct (main_run_cases env fuel) as [[Hr _]|[_ (msg & n & c & _ & E & _)]].
  - destruct (main_run_loop_writes env fuel Hr) as (ds & -> & Hcat). eauto.
  - rewrite E. cbn [snd trace]. rewrite writes_prefix_firstn. exists 0. reflexivity.
Qed.

(** X5: when [main] returns [Ok], the header decoded, the file holds at
    least [44 + data_size_bytes] bytes, and the audio written is the first
    [n] bytes after the header, with [data_size_bytes <= n <
    data_size_bytes + 1024]. *)
Theorem normal_exit_plays_data (env : Env) (fuel : nat)
  (Hok : fst (main_run env fuel) = Ok tt) :
  exists h n, decode_header (firstn 44 (file env)) = Ok h
    /\ 44 + Z.to_nat (size_of_data h) <= List.length (file env)
    /\ List.concat (writes (trace (snd (main_run env fuel))))
       = firstn n (skipn 44 (file env))
    /\ Z.to_nat (size_of_data h) <= n < Z.to_nat (size_of_data h) + 1024.
Proof.
  destruct (main_run_cases env fuel) as [[Hr _]|[_ (msg & n & c & _ & E & _)]].
  2:{ rewrite E in Hok. discriminate. }
  destruct (main_run_loop_shape env fuel Hr)
    as (h & ds & tail & Hd & Htr & Hcat & Hcases).
  destruct Hcases as [(_ & -> & Hge & Hlast)|[(H & _)|[(H & _)|[(H & _)|(H & _)]]]];
    try congruence.
  exists h, (total ds).
  assert (Hw : writes (trace (snd (main_run env fuel))) = ds)
    by (rewrite Htr, !writes_app, writes_main_prefix, writes_rw_pairs; apply app_nil_r).
  assert (Hl : total ds <= List.length (file env) - 44).
  { assert (L := f_equal (@List.length _) Hcat).
    rewrite length_concat, length_firstn, length_skipn in L. unfold total. lia. }
  rewrite Hw. split; [exact Hd|]. split; [destruct Hr as (H44 & _); lia|]. split; [exact Hcat|].
  destruct Hlast as [->|Hlast]; [change (total []) with 0 in *; lia|lia].
Qed.

Lemma normal_exit_plays_data_witness :
  exists h n, decode_header (firstn 44 (file env_2500)) = Ok h
    /\ 44 + Z.to_nat (size_of_data h) <= List.length (file env_2500)
    /\ List.concat (writes (trace (snd (main_run env_2500 3))))
       = firstn n (skipn 44 (file env_2500))
    /\ Z.to_nat (size_of_data h) <= n < Z.to_nat (size_of_data h) + 1024.
Proof. apply normal_exit_plays_data. vm_compute. reflexivity. Defined.

(** X6: every I2S write of a run comes after [tx_enable]. *)
Theorem writes_after_enable (env : Env) (fuel : nat) tr1 d tr2
  (Htr : trace (snd (main_run env fuel)) = tr1 ++ I2sWrite d :: tr2) :
  In TxEnable tr1.
Proof.
  destruct (main_run_cases env fuel) as [[Hr _]|[_ (msg & n & c & _ & E & _)]].
  - destruct (main_run_loop_shape env fuel Hr) as (h & ds & tail & _ & Htr' & _).
    rewrite Htr' in Htr.
    apply app_eq_app in Htr as (l & [[E1 E2]|[E1 E2]]).
    + destruct l as [|y l].
      * rewrite app_nil_r in E1. rewrite <- E1, <- app_nil_r.
        apply tx_enable_in_prefix.
      * injection E2 as <- _. exfalso.
        assert (W := writes_main_prefix env). rewrite E1, writes_app in W.
        apply app_eq_nil in W as [_ W]. discriminate.
    + rewrite E1. apply tx_enable_in_prefix.
  - rewrite E in Htr. cbn [snd trace] in Htr.
    assert (W := writes_prefix_firstn env n). rewrite Htr, writes_app in W.
    apply app_eq_nil in W as [_ W]. discriminate.
Qed.

Lemma writes_after_enable_witness :
  In TxEnable (firstn 7 (trace (snd (main_run env_2500 3)))).
Proof.
  apply (writes_after_enable env_2500 3 _ (firstn 1024 (skipn 44 (file env_2500)))
           (skipn 8 (trace (snd (main_run env_2500 3))))).
  vm_compute. reflexivity.
Defined.

Lemma ceil_small (x : nat) : 0 < x <= 1024 -> (x + 1023) / 1024 = 1.
Proof. intros. symmetry. apply Nat.div_unique with (r := x - 1); lia. Qed.

Lemma transfer_exit env fuel size dr s :
  Nat.ltb dr size = false -> transfer env fuel size dr s = ret tt s.
Proof. intros H. destruct fuel; cbn [transfer]; rewrite H; reflexivity. Qed.

Lemma rw_pairs_cons d ds : rw_pairs (d :: ds) = [SdRead d; I2sWrite d] ++ rw_pairs ds.
Proof. reflexivity. Qed.

Lemma total_cons d ds : total (d :: ds) = List.length d + total ds.
Proof. reflexivity. Qed.

(** When the file holds at least the [size - data_read] bytes the loop
    still expects, the loop exits after [ceil((size - data_read) / 1024)]
    iterations, having read whole chunks of 1024 bytes until that count of
    chunks or the file ends. *)
Lemma transfer_long env size :
  no_faults env ->
  forall fuel dr c t,
  c <= List.length (file env) -> size - dr <= List.length (file env) - c ->
  (size - dr + 1023) / 1024 <= fuel ->
  exists ds,
    transfer env fuel size dr {| cursor := c; trace := t |} =
      (Ok tt, {| cursor := c + total ds; trace := t ++ rw_pairs ds |})
    /\ List.length ds = (size - dr + 1023) / 1024
    /\ total ds = Nat.min (List.length (file env) - c) (1024 * ((size - dr + 1023) / 1024)).
Proof.
  intros [Hrf Hwf] fuel. induction fuel as [|fuel IH]; intros dr c t Hc Hle Hfuel.
  - destruct (Nat.lt_ge_cases dr size) as [Hlt|Hge].
    { pose proof (ceil_pos (size - dr) ltac:(lia)). lia. }
    exists []. rewrite transfer_exit by (apply Nat.ltb_ge; lia).
    replace (size - dr) with 0 by lia. rewrite Nat.div_small by lia.
    change (total []) with 0. change (rw_pairs []) with (@nil Event).
    rewrite Nat.add_0_r, app_nil_r, Nat.mul_0_r, Nat.min_0_r.
    repeat split.
  - destruct (Nat.lt_ge_cases dr size) as [Hlt|Hge].
    2:{ exists []. rewrite transfer_exit by (apply Nat.ltb_ge; lia).
        replace (size - dr) with 0 by lia. rewrite Nat.div_small by lia.
        change (total []) with 0. change (rw_pairs []) with (@nil Event).
        rewrite Nat.add_0_r, app_nil_r, Nat.mul_0_r, Nat.min_0_r.
        repeat split. }
    rewrite transfer_step; [|apply Nat.ltb_lt; lia|apply Hrf|apply Hwf].
    set (d := firstn CHUNK_SIZE (skipn c (file env))).
    assert (Hd : List.length d = Nat.min 1024 (List.length (file env) - c)).
    { unfold d, CHUNK_SIZE. rewrite length_firstn, length_skipn. reflexivity. }
    destruct (Nat.le_gt_cases (size - dr) 1024) as [Hsm|Hbig].
    + rewrite (ceil_small (size - dr)) by lia.
      destruct (IH (dr + List.length d) (c + List.length d) (t ++ [SdRead d; I2sWrite d]))
        as (ds & Hrun & Hl & Ht); [lia|lia| |].
      { replace (size - (dr + List.length d)) with 0 by lia.
        rewrite Nat.div_small by lia. lia. }
      replace (size - (dr + List.length d)) with 0 in Hl by lia.
      rewrite Nat.div_small in Hl by lia.
      destruct ds; [|discriminate].
      exists [d]. rewrite Hrun. rewrite rw_pairs_cons, total_cons.
      change (total []) with 0. change (rw_pairs []) with (@nil Event).
      rewrite !app_nil_r, !Nat.add_0_r. split; [reflexivity|]. split; [reflexivity|]. lia.
    + set (k := (size - dr + 1023) / 1024) in *.
      set (k' := (size - (dr + 1024) + 1023) / 1024).
      assert (Hk : k' + 1 = k).
      { unfold k, k'. replace (size - (dr + 1024)) with (size - dr - 1024) by lia.
        apply div_sub_1024. lia. }
      assert (Hd' : List.length d = 1024) by lia.
      rewrite Hd'.
      destruct (IH (dr + 1024) (c + 1024) (t ++ [SdRead d; I2sWrite d]))
        as (ds & Hrun & Hl & Ht); [lia|lia|fold k'; lia|].
      fold k' in Hl, Ht.
      exists (d :: ds). rewrite Hrun, rw_pairs_cons, total_cons, Hd', <- app_assoc.
      split; [f_equal; f_equal; lia|]. split; [cbn [List.length]; lia|]. lia.
Qed.

(** X7: for a run that reaches the loop, with no card or I2S fault and a
    file holding at least
    [44 + data_size_bytes] bytes, [main] returns [Ok] after
    [ceil(data_size_bytes / 1024)] writes of whole 1024-byte reads, which
    play the file from byte 44 up to that many chunks or the end of the
    file. *)
Theorem long_file_finishes (env : Env) (fuel : nat) (h : WavHeader)
  (Hloop : reaches_loop env) (Hnf : no_faults env)
  (Hdis : disable_fails env = false)
  (Hdec : decode_header (firstn 44 (file env)) = Ok h)
  (Hlen : 44 + Z.to_nat (size_of_data h) <= List.length (file env))
  (Hfuel : (Z.to_nat (size_of_data h) + 1023) / 1024 <= fuel) :
  fst (main_run env fuel) = Ok tt
  /\ List.length (writes (trace (snd (main_run env fuel))))
     = (Z.to_nat (size_of_data h) + 1023) / 1024
  /\ List.concat (writes (trace (snd (main_run env fuel))))
     = firstn (Nat.min (List.length (file env) - 44)
                       (1024 * ((Z.to_nat (size_of_data h) + 1023) / 1024)))
              (skipn 44 (file env)).
Proof.
  destruct (main_run_prefix env fuel Hloop) as (h' & Hd' & E).
  rewrite Hdec in Hd'. injection Hd' as <-.
  destruct (transfer_long env (Z.to_nat (size_of_data h)) Hnf fuel 0 44 (main_prefix env))
    as (ds & Hrun & Hl & Ht); [lia|rewrite Nat.sub_0_r; lia|rewrite Nat.sub_0_r; exact Hfuel|].
  rewrite Nat.sub_0_r in Hl, Ht.
  pose proof Hrun as Hrun2.
  apply transfer_cases in Hrun2 as (ds' & tail & Htr & Hcat & Hc).
  cbn [trace] in Htr. apply app_inv_head in Htr.
  destruct Hc as [(_ & ->)|[(H & _)|[(H & _)|(H & _)]]]; try discriminate.
  rewrite app_nil_r in Htr.
  assert (ds' = ds) as ->
    by (rewrite <- (writes_rw_pairs ds'), <- Htr, writes_rw_pairs; reflexivity).
  rewrite E, (bind_ok _ _ _ _ _ Hrun). unfold tx_disable. rewrite Hdis.
  unfold emit. cbn [fst snd trace].
  rewrite !writes_app, writes_main_prefix, writes_rw_pairs. cbn [writes app].
  rewrite app_nil_r, <- Ht.
  split; [reflexivity|]. split; [exact Hl|exact Hcat].
Qed.

Lemma long_file_finishes_witness :
  fst (main_run env_2500_trailing 3) = Ok tt
  /\ List.length (writes (trace (snd (main_run env_2500_trailing 3))))
     = (Z.to_nat (size_of_data header_2500) + 1023) / 1024
  /\ List.concat (writes (trace (snd (main_run env_2500_trailing 3))))
     = firstn (Nat.min (List.length (file env_2500_trailing) - 44)
                       (1024 * ((Z.to_nat (size_of_data header_2500) + 1023) / 1024)))
              (skipn 44 (file env_2500_trailing)).
Proof.
  apply long_file_finishes.
  - unfold reaches_loop. vm_compute. repeat split; lia.
  - split; intros; reflexivity.
  - reflexivity.
  - vm_compute. reflexivity.
  - vm_compute. lia.
  - vm_compute. lia.
Defined.

(** Two environments that agree after offset 44 and on the faults give the
    same loop. *)
Lemma transfer_congr (e1 e2 : Env)
  (Hrf : forall c, read_fault e1 c = read_fault e2 c)
  (Hwf : forall p, write_fault e1 p = write_fault e2 p)
  (Hdata : skipn 44 (file e1) = skipn 44 (file e2)) :
  forall fuel size dr c t, 44 <= c ->
  transfer e1 fuel size dr {| cursor := c; trace := t |}
  = transfer e2 fuel size dr {| cursor := c; trace := t |}.
Proof.
  assert (Hs : forall c, 44 <= c -> skipn c (file e1) = skipn c (file e2)).
  { intros c Hc. replace c with ((c - 44) + 44) by lia.
    rewrite <- !skipn_skipn, Hdata. reflexivity. }
  intros fuel. induction fuel as [|fuel IH]; intros size dr c t Hc.
  - reflexivity.
  - rewrite !transfer_unfold. destruct (Nat.ltb dr size); [|reflexivity].
    destruct (read_fault e2 c) eqn:Hr.
    + assert (Hr1 : read_fault e1 c = true) by (rewrite Hrf; exact Hr).
      rewrite (bind_fail _ _ _ _ _ (sd_read_fault e2 CHUNK_SIZE c t Hr)),
        (bind_fail _ _ _ _ _ (sd_read_fault e1 CHUNK_SIZE c t Hr1)).
      reflexivity.
    + assert (Hr1 : read_fault e1 c = false) by (rewrite Hrf; exact Hr).
      rewrite (bind_ok _ _ _ _ _ (sd_read_ok e2 CHUNK_SIZE c t Hr)),
        (bind_ok _ _ _ _ _ (sd_read_ok e1 CHUNK_SIZE c t Hr1)).
      rewrite (Hs c Hc). unfold i2s_write_all. rewrite Hwf.
      destruct (write_fault e2 dr); [reflexivity|].
      erewrite bind_ok by reflexivity. erewrite bind_ok by reflexivity.
      apply IH. cbn [cursor]. lia.
Qed.

(** X8: two files that both pass the setup, have the same
    [data_size_bytes] and the same bytes after offset 44, with the same
    faults, give the same result and the same I2S writes: no other header
    field (rate, channels, tags, ...) changes what is played. *)
Theorem header_fields_irrelevant (e1 e2 : Env) (fuel : nat) (h1 h2 : WavHeader)
  (H1 : reaches_loop e1) (H2 : reaches_loop e2)
  (Hd1 : decode_header (firstn 44 (file e1)) = Ok h1)
  (Hd2 : decode_header (firstn 44 (file e2)) = Ok h2)
  (Hsize : size_of_data h1 = size_of_data h2)
  (Hdata : skipn 44 (file e1) = skipn 44 (file e2))
  (Hrf : forall c, read_fault e1 c = read_fault e2 c)
  (Hwf : forall p, write_fault e1 p = write_fault e2 p)
  (Hdis : disable_fails e1 = disable_fails e2) :
  fst (main_run e1 fuel) = fst (main_run e2 fuel)
  /\ writes (trace (snd (main_run e1 fuel))) = writes (trace (snd (main_run e2 fuel))).
Proof.
  destruct (main_run_prefix e1 fuel H1) as (h1' & D1 & E1).
  rewrite Hd1 in D1. injection D1 as <-.
  destruct (main_run_prefix e2 fuel H2) as (h2' & D2 & E2).
  rewrite Hd2 in D2. injection D2 as <-.
  rewrite E1, E2, Hsize. unfold bind.
  set (S := Z.to_nat (size_of_data h2)).
  rewrite (transfer_framed e1 fuel S 0 44 (main_prefix e1)),
    (transfer_framed e2 fuel S 0 44 (main_prefix e2)).
  rewrite (transfer_congr e1 e2 Hrf Hwf Hdata fuel S 0 44 [] (le_n 44)).
  destruct (transfer e2 fuel S 0 {| cursor := 44; trace := [] |})
    as [[[]|e] [c' t']]; cbn [fst snd trace cursor].
  - unfold tx_disable. rewrite Hdis. destruct (disable_fails e2); cbn [fst snd trace stop emit];
      rewrite !writes_app, !writes_main_prefix; split; reflexivity.
  - rewrite !writes_app, !writes_main_prefix. split; reflexivity.
Qed.

Lemma header_fields_irrelevant_witness :
  fst (main_run env_22050 3) = fst (main_run env_2500 3)
  /\ writes (trace (snd (main_run env_22050 3))) = writes (trace (snd (main_run env_2500 3))).
Proof.
  apply (header_fields_irrelevant env_22050 env_2500 3 header_22050 header_2500).
  - unfold reaches_loop. vm_compute. repeat split; lia.
  - unfold reaches_loop. vm_compute. repeat split; lia.
  - vm_compute. reflexivity.
  - vm_compute. reflexivity.
  - vm_compute. reflexivity.
  - vm_compute. reflexivity.
  - intros; reflexivity.
  - intros; reflexivity.
  - reflexivity.
Defined.

(** X9: every run that reaches the loop: the calls of the setup, then
    read and write pairs of contiguous data from byte 44, and one of five
    endings: [Ok] after [tx_disable] with at least [data_size_bytes] and
    less than [data_size_bytes + 1024] bytes played (or nothing read), a
    [tx_disable] panic, a loop that has not exited, a card error, or an
    I2S error after a last read. *)
Theorem run_shape (env : Env) (fuel : nat) (Hloop : reaches_loop env) :
  exists h ds tail, decode_header (firstn 44 (file env)) = Ok h
    /\ trace (snd (main_run env fuel)) = main_prefix env ++ rw_pairs ds ++ tail
    /\ List.concat ds = firstn (total ds) (skipn 44 (file env))
    /\ ((fst (main_run env fuel) = Ok tt /\ tail = [TxDisable]
         /\ Z.to_nat (size_of_data h) <= total ds
         /\ (ds = [] \/ total ds < Z.to_nat (size_of_data h) + 1024))
        \/ (fst (main_run env fuel) = Fail (Panic "tx_disable") /\ tail = [])
        \/ (fst (main_run env fuel) = Fail OutOfFuel /\ tail = [])
        \/ (fst (main_run env fuel) = Fail (Error SdCardError) /\ tail = [])
        \/ (fst (main_run env fuel) = Fail (Error I2sError)
            /\ tail = [SdRead (firstn 1024 (skipn (44 + total ds) (file env)))])).
Proof. exact (main_run_loop_shape env fuel Hloop). Qed.

Lemma run_shape_witness :
  exists h ds tail, decode_header (firstn 44 (file env_read_error)) = Ok h
    /\ trace (snd (main_run env_read_error 10)) = main_prefix env_read_error ++ rw_pairs ds ++ tail
    /\ List.concat ds = firstn (total ds) (skipn 44 (file env_read_error))
    /\ ((fst (main_run env_read_error 10) = Ok tt /\ tail = [TxDisable]
         /\ Z.to_nat (size_of_data h) <= total ds
         /\ (ds = [] \/ total ds < Z.to_nat (size_of_data h) + 1024))
        \/ (fst (main_run env_read_error 10) = Fail (Panic "tx_disable") /\ tail = [])
        \/ (fst (main_run env_read_error 10) = Fail OutOfFuel /\ tail = [])
        \/ (fst (main_run env_read_error 10) = Fail (Error SdCardError) /\ tail = [])
        \/ (fst (main_run env_read_error 10) = Fail (Error I2sError)
            /\ tail = [SdRead (firstn 1024 (skipn (44 + total ds) (file env_read_error)))])).
Proof. apply run_shape. unfold reaches_loop. vm_compute. repeat split; lia. Defined.
